(** * Keyword classifier and dictionary store of the text classification tool

    A shallow embedding of [1_app.py]: the [classify_text] function, the
    keyword dictionaries kept in [st.session_state.dictionaries], the sidebar
    actions of [main] that edit them (Update, Delete, Add Category), the
    batch classification of an uploaded table, and the figures and filters
    of the results page.

    Modelling choices.
    - A Python [str] is a [string]; the model covers texts over the ASCII
      range, where [str.lower] folds exactly the letters A-Z and
      [str.strip] removes the characters 9-13 and 28-32. Outside that
      range [str.lower] folds further letters, some by context, and
      [str.strip] removes further blanks; no statement below is about
      which letters are folded or which blanks are removed.
    - A [dict] keeps its keys in insertion order, so it is an association
      list with pairwise distinct keys ([NoDup] of its keys); assignment to
      an existing key replaces the value in place, assignment to a fresh key
      appends.
    - A [set] of strings is a [gset string]; a [for] loop over it runs over
      [elements].
    - A value that is not a [str] is an object with a [__str__] method;
      [classify_text] is first modelled on the values on which [str]
      returns, then, as [classify_text_call], on any object, where [str]
      may raise. *)

From Stdlib Require Import Ascii String.
From stdpp Require Import base decidable option list gmap sets strings pretty.


(** ** Strings *)

(** [c.lower()] for one character. *)
Definition lower_char (c : ascii) : ascii :=
  let n := nat_of_ascii c in
  if bool_decide (65 ≤ n ≤ 90)%nat then ascii_of_nat (n + 32) else c.

(** [s.lower()]. *)
Fixpoint lower (s : string) : string :=
  match s with
  | EmptyString => EmptyString
  | String c s' => String (lower_char c) (lower s')
  end.

(** [hay.startswith(needle)]. *)
Fixpoint startswith (needle hay : string) : bool :=
  match needle, hay with
  | EmptyString, _ => true
  | String _ _, EmptyString => false
  | String a needle', String b hay' =>
      if decide (a = b) then startswith needle' hay' else false
  end.

(** [needle in hay]: the needle starts at some position of the haystack. *)
Fixpoint str_contains (needle hay : string) : bool :=
  if startswith needle hay then true
  else match hay with
       | EmptyString => false
       | String _ hay' => str_contains needle hay'
       end.

(** [sep.join(l)]. *)
Fixpoint join (sep : string) (l : list string) : string :=
  match l with
  | [] => ""
  | [x] => x
  | x :: rest => x +:+ sep +:+ join sep rest
  end.

(** The characters [str.strip()] removes. *)
Definition isspace (c : ascii) : bool :=
  let n := nat_of_ascii c in
  bool_decide (9 ≤ n ≤ 13)%nat || bool_decide (28 ≤ n ≤ 32)%nat.

(** Every character of the string is one [str.strip()] removes. *)
Fixpoint all_space (s : string) : bool :=
  match s with
  | EmptyString => true
  | String c s' => isspace c && all_space s'
  end.

Fixpoint lstrip (s : string) : string :=
  match s with
  | EmptyString => EmptyString
  | String c s' => if isspace c then lstrip s' else s
  end.

Fixpoint rstrip (s : string) : string :=
  match s with
  | EmptyString => EmptyString
  | String c s' =>
      match rstrip s' with
      | EmptyString => if isspace c then EmptyString else String c EmptyString
      | r => String c r
      end
  end.

(** [s.strip()]. *)
Definition strip (s : string) : string := rstrip (lstrip s).

(** [s.split(sep)] for a one-character separator: never an empty list. *)
Fixpoint split (sep : ascii) (s : string) : list string :=
  match s with
  | EmptyString => [""]
  | String c s' =>
      if decide (c = sep) then "" :: split sep s'
      else match split sep s' with
           | [] => [String c ""]
           | piece :: pieces => String c piece :: pieces
           end
  end.

(** Truth value of a string in a condition: non-empty. *)
Definition truthy (s : string) : bool :=
  match s with EmptyString => false | String _ _ => true end.

(** ** Values *)

(** Objects that are not strings, with the string their [__str__] returns.
    These are the objects on which [str] returns; a call of [str] that
    raises is modelled further down, by [call_str]. *)
Class PyObject (obj : Type) := obj_str : obj → string.

Inductive value (obj : Type) : Type :=
  | VStr (s : string)
  | VObj (o : obj).
Arguments VStr {obj} s.
Arguments VObj {obj} o.

(** [str(v)]: a string is returned as it is. *)
Definition str {obj} `{PyObject obj} (v : value obj) : string :=
  match v with
  | VStr s => s
  | VObj o => obj_str o
  end.

(** The scalars [pd.read_csv] puts in a column that is not text: machine
    integers, booleans and the missing value; [str] returns on all of
    them. *)
Inductive scalar : Type :=
  | SInt (n : Z)
  | SBool (b : bool)
  | SNaN.

#[export] Instance scalar_object : PyObject scalar := λ x,
  match x with
  | SInt n => pretty n
  | SBool true => "True"
  | SBool false => "False"
  | SNaN => "nan"
  end.

(** ** Insertion-ordered dictionaries *)

Section Dict.
Context {V : Type}.

Definition dict : Type := list (string * V).

Definition keys (d : dict) : list string := d.*1.

(** [d[k]], [None] for [KeyError]. *)
Fixpoint getitem (d : dict) (k : string) : option V :=
  match d with
  | [] => None
  | (k', v) :: d' => if decide (k' = k) then Some v else getitem d' k
  end.

(** [d[k] = v]. *)
Fixpoint setitem (d : dict) (k : string) (v : V) : dict :=
  match d with
  | [] => [(k, v)]
  | (k', v') :: d' =>
      if decide (k' = k) then (k', v) :: d' else (k', v') :: setitem d' k v
  end.

(** [del d[k]], [None] for [KeyError]. *)
Fixpoint delitem (d : dict) (k : string) : option dict :=
  match d with
  | [] => None
  | (k', v) :: d' =>
      if decide (k' = k) then Some d' else cons (k', v) <$> delitem d' k
  end.
End Dict.
Arguments dict V : clear implicits.

(** The dictionaries: category name to keyword set. *)
Abbreviation store := (dict (gset string)).

(** ** The classifier *)

Section Classifier.
Context {obj : Type} `{PyObject obj}.

(** The inner loop of [classify_text] over the keywords of one category,
    in the order the set yields them: the first keyword found in the text
    appends the category and leaves the loop. *)
Fixpoint scan_keywords (text_lower category : string) (keywords : list string)
    (classifications : list string) : list string :=
  match keywords with
  | [] => classifications
  | keyword :: rest =>
      if str_contains keyword text_lower
      then classifications ++ [category]
      else scan_keywords text_lower category rest classifications
  end.

(** The outer loop, over [dictionaries.items()]. *)
Definition scan_categories (text_lower : string) (items : list (string * gset string))
    (classifications : list string) : list string :=
  fold_left
    (λ acc item, scan_keywords text_lower item.1 (elements item.2) acc)
    items classifications.

(** The returned label. *)
Definition label (classifications : list string) : string :=
  match classifications with
  | [] => "unclassified"
  | _ :: _ => join ", " classifications
  end.

Definition classify_text (text : value obj) (dictionaries : store) : string :=
  let text_lower := lower (str text) in
  let classifications := scan_categories text_lower dictionaries [] in
  label classifications.
End Classifier.

(** ** The session's dictionaries and the sidebar actions of [main] *)

(** [st.session_state.dictionaries] when a session starts. *)
Definition initial_dictionaries : store :=
  [("urgency_marketing",
    {["limited"; "limited time"; "limited run"; "limited edition"; "order now";
      "last chance"; "hurry"; "while supplies last"; "before they're gone";
      "selling out"; "selling fast"; "act now"; "don't wait"; "today only";
      "expires soon"; "final hours"; "almost gone"]});
   ("exclusive_marketing",
    {["exclusive"; "exclusively"; "exclusive offer"; "exclusive deal";
      "members only"; "vip"; "special access"; "invitation only";
      "premium"; "privileged"; "limited access"; "select customers";
      "insider"; "private sale"; "early access"]})].

(** What the page shows after an action: [st.success] or [st.error]. *)
Inductive feedback : Type :=
  | Success (msg : string)
  | Error (msg : string).

(** [set([kw.strip() for kw in text.split('\n') if kw.strip()])], the
    expression both the Update and the Add Category button evaluate. *)
Definition parse_keywords (text : string) : gset string :=
  list_to_set (strip <$> filter (λ kw, truthy (strip kw)) (split "010"%char text)).

(** The Update button of a category. *)
Definition update_category (category new_keywords : string)
    (dictionaries : store) : store * feedback :=
  let updated_keywords := parse_keywords new_keywords in
  (setitem dictionaries category updated_keywords,
   Success ("Updated " +:+ category +:+ "!")).

(** The Delete button of a category; [None] when [del] raises [KeyError]. *)
Definition delete_category (category : string)
    (dictionaries : store) : option (store * feedback) :=
  dictionaries' ← delitem dictionaries category;
  Some (dictionaries', Success ("Deleted " +:+ category +:+ "!")).

(** The Add Category button. *)
Definition add_category (new_category_name new_category_keywords : string)
    (dictionaries : store) : store * feedback :=
  if truthy new_category_name && truthy new_category_keywords then
    let keywords_set := parse_keywords new_category_keywords in
    (setitem dictionaries new_category_name keywords_set,
     Success ("Added category: " +:+ new_category_name))
  else
    (dictionaries, Error "Please provide both category name and keywords.").

(** ** The uploaded table and the Classify button *)

(** A [DataFrame]: its columns in order, each with one value per row. *)
Abbreviation dataframe obj := (dict (list (value obj))).

(** [df.at[i, column]]. *)
Definition cell {obj} (df : dataframe obj) (column : string) (i : nat)
    : option (value obj) :=
  col ← getitem df column; col !! i.

(** [df['classification'] = df[text_column].apply(lambda x: classify_text(x,
    dictionaries))]; [None] when [df[text_column]] raises [KeyError]. *)
Definition classify_all {obj} `{PyObject obj} (df : dataframe obj)
    (text_column : string) (dictionaries : store) : option (dataframe obj) :=
  texts ← getitem df text_column;
  Some (setitem df "classification"
          ((λ x, VStr (classify_text x dictionaries)) <$> texts)).

(** The Classify Text button: the table it leaves and what it reports. An
    exception is caught by the handler around the upload. *)
Definition classify_button {obj} `{PyObject obj} (df : dataframe obj)
    (text_column : string) (dictionaries : store)
    : dataframe obj * feedback :=
  match dictionaries with
  | [] =>
      (df, Error "Please add at least one category with keywords before classifying.")
  | _ :: _ =>
      match classify_all df text_column dictionaries with
      | Some df' => (df', Success "Classification completed!")
      | None => (df, Error ("Error reading file: '" +:+ text_column +:+ "'"))
      end
  end.

(** ** [classify_text] against the object it is handed *)

(** The [dictionaries] argument is a reference to the session's mutable
    dictionary. A computation that may read and write that object: *)
Definition State (A : Type) : Type := store → A * store.

Definition ret {A} (a : A) : State A := λ σ, (a, σ).

Definition bind {A B} (m : State A) (k : A → State B) : State B :=
  λ σ, let (a, σ') := m σ in k a σ'.

Notation "x ←ₛ m ;; k" := (bind m (λ x, k))
  (at level 100, m at next level, right associativity, only parsing).

(** [dictionaries.items()], with each keyword set listed in the order its
    iterator yields. *)
Definition dict_items : State (list (string * list string)) :=
  λ σ, (prod_map id elements <$> σ, σ).

(** One category of the outer loop. *)
Definition visit_category (text_lower : string) (item : string * list string)
    (classifications : list string) : State (list string) :=
  ret (scan_keywords text_lower item.1 item.2 classifications).

(** The outer loop, threading the object. *)
Fixpoint visit_items (text_lower : string) (items : list (string * list string))
    (classifications : list string) : State (list string) :=
  match items with
  | [] => ret classifications
  | item :: rest =>
      classifications' ←ₛ visit_category text_lower item classifications ;;
      visit_items text_lower rest classifications'
  end.

Definition classify_text_st {obj} `{PyObject obj} (text : value obj)
    : State string :=
  let text_lower := lower (str text) in
  items ←ₛ dict_items ;;
  classifications ←ₛ visit_items text_lower items [] ;;
  ret (label classifications).

(** ** The specification's notions *)

(** [k] is a contiguous substring of [t]. *)
Definition substring_of (k t : string) : Prop :=
  ∃ pre suf, t = pre +:+ k +:+ suf.

(** Some keyword of the set is found in the text by [in]. *)
Definition category_matches (text_lower : string) (keywords : gset string) : Prop :=
  ∃ kw, kw ∈ keywords ∧ str_contains kw text_lower = true.

#[export] Instance category_matches_dec text_lower keywords :
  Decision (category_matches text_lower keywords) :=
  set_Exists_dec (λ kw, str_contains kw text_lower = true) keywords.

(** The matched categories, in the store's order. *)
Definition matched_categories (text_lower : string) (dictionaries : store)
    : list string :=
  (filter (λ item, category_matches text_lower item.2) dictionaries).*1.

(** The keywords input has a line that is not blank. *)
Definition has_keyword_line (text : string) : Prop :=
  ∃ line, line ∈ split "010"%char text ∧ strip line ≠ "".

(** ** Examples *)

Definition example_store : store :=
  [("urgency_marketing", {["hurry"; "act now"]});
   ("exclusive_marketing", {["vip"]})].

Definition example_text : value scalar :=
  VStr "Act now, VIP members get early access".

(** A category whose keyword was typed in capitals, and a text with it. *)
Definition vip_store : store := [("exclusive_marketing", {["VIP"]})].

Definition vip_text : value scalar := VStr "VIP sale".

(** A table that already has a column named classification. *)
Definition labelled_table : dataframe scalar :=
  [("text", [VStr "Hurry up"]); ("classification", [VStr "reviewed"])].

(** A table as the classification leaves it. *)
Definition classified_table : dataframe scalar :=
  [("text", [VStr "Hurry"; VStr "Plain"; VStr "Act now, VIP"]);
   ("classification",
    VStr <$> ["urgency_marketing"; "unclassified";
              "urgency_marketing, exclusive_marketing"])].

(** A table with an integer column and a text column with a missing cell. *)
Definition sample_table : dataframe scalar :=
  [("id", [VObj (SInt 1); VObj (SInt 2)]);
   ("text", [VStr "VIP early access"; VObj SNaN])].

(** ** Calls that raise *)

Inductive exception : Type :=
  | KeyError
  | ValueError
  | ReError.

(** [str(x)] on any Python object: the string it returns ([inr]) or the
    exception it raises ([inl]). *)
Class HasStr (A : Type) := call_str : A → exception + string.

(** On a string and on an object whose [__str__] returns, [str] returns. *)
#[export] Instance value_has_str {obj} `{PyObject obj} : HasStr (value obj) :=
  λ v, inr (str v).

(** A Python [int]. *)
Inductive pyint : Type := PyInt (n : Z).

(** [str] of an [int] with more than 4300 decimal digits raises
    [ValueError] (the interpreter's default limit on the conversion). *)
#[export] Instance pyint_has_str : HasStr pyint := λ x,
  match x with
  | PyInt n =>
      if decide (10 ^ 4300 ≤ Z.abs n)%Z then inl ValueError else inr (pretty n)
  end.

(** [classify_text] on any object: line 32 calls [str], which may raise;
    nothing in the function catches the exception. *)
Definition classify_text_call {A} `{HasStr A} (text : A) (dictionaries : store)
    : exception + string :=
  match call_str text with
  | inl e => inl e
  | inr s =>
      let text_lower := lower s in
      let classifications := scan_categories text_lower dictionaries [] in
      inr (label classifications)
  end.

(** ** The rest of the sidebar *)

(** The character occurs in the string. *)
Fixpoint mentions (c : ascii) (s : string) : bool :=
  match s with
  | EmptyString => false
  | String a s' => bool_decide (a = c) || mentions c s'
  end.

(** The text a category's text area is first filled with:
    ['\n'.join(list(dictionaries[category]))]. *)
Definition keywords_text (keywords : gset string) : string :=
  join (String "010" "") (elements keywords).

(** One press of a sidebar button. *)
Inductive edit : Type :=
  | Update (category new_keywords : string)
  | Delete (category : string)
  | Add (new_category_name new_category_keywords : string).

(** The store after the press. The page draws an Update and a Delete
    button for the categories of the store only: there is none to press
    for another name. *)
Definition apply_edit (e : edit) (dictionaries : store) : option store :=
  match e with
  | Update category new_keywords =>
      if decide (category ∈ keys dictionaries)
      then Some (update_category category new_keywords dictionaries).1
      else None
  | Delete category =>
      if decide (category ∈ keys dictionaries)
      then fst <$> delete_category category dictionaries
      else None
  | Add new_category_name new_category_keywords =>
      Some (add_category new_category_name new_category_keywords dictionaries).1
  end.

(** The stores a session can be in. *)
Inductive reachable : store → Prop :=
  | reachable_initial : reachable initial_dictionaries
  | reachable_edit S e S' :
      reachable S → apply_edit e S = Some S' → reachable S'.

(** A keyword as the sidebar stores them: not empty, nothing to strip, on
    one line. *)
Definition keyword_ok (k : string) : bool :=
  truthy k && bool_decide (strip k = k) && negb (mentions "010" k).

(** ** The results page *)

(** The table has [n] rows: every column has [n] values. *)
Definition rectangular {obj} (n : nat) (df : dataframe obj) : Prop :=
  Forall (λ item, length item.2 = n) df.

(** [len(df)] of a table with a column. *)
Definition len_df {obj} (df : dataframe obj) : nat :=
  match df with
  | [] => 0
  | (_, col) :: _ => length col
  end.

(** [label == 'unclassified'] on a cell. *)
Definition is_unclassified {obj} (v : value obj) : bool :=
  match v with
  | VStr s => bool_decide (s = "unclassified")
  | VObj _ => false
  end.

(** One column under a boolean mask. *)
Definition select {A} (mask : list bool) (col : list A) : list A :=
  (filter (λ p, p.1 = true) (zip mask col)).*2.

(** [df[mask]]: the rows where the mask holds, in every column. *)
Definition select_rows {obj} (mask : list bool) (df : dataframe obj)
    : dataframe obj :=
  prod_map id (select mask) <$> df.

(** The three figures under Classification Results: Total Statements,
    Classified, Unclassified; [None] when [df['classification']] raises. *)
Definition metrics {obj} (df : dataframe obj) : option (nat * nat * nat) :=
  labels ← getitem df "classification";
  Some (len_df df,
        len_df (select_rows (negb ∘ is_unclassified <$> labels) df),
        len_df (select_rows (is_unclassified <$> labels) df)).

(** The table under Detailed Results for a filter option, or the
    exception the page raises. [Series.str.contains] compiles the option as
    a regular expression: [re_compile] is a parameter, [None] for a pattern
    that is no regular expression ([re.error]), else the search of the
    pattern in a string. The column searched is the one the classification
    has just written: a cell that is not a string counts as no match
    ([na=False]). *)
Definition filter_results {obj} (re_compile : string → option (string → bool))
    (filter_option : string) (df : dataframe obj)
    : exception + dataframe obj :=
  if decide (filter_option = "All") then inr df
  else
    match getitem df "classification" with
    | None => inl KeyError
    | Some labels =>
        if decide (filter_option = "Classified Only")
        then inr (select_rows (negb ∘ is_unclassified <$> labels) df)
        else if decide (filter_option = "Unclassified Only")
        then inr (select_rows (is_unclassified <$> labels) df)
        else
          match re_compile filter_option with
          | None => inl ReError
          | Some search =>
              inr (select_rows
                     ((λ v, match v with
                            | VStr s => search s
                            | VObj _ => false
                            end) <$> labels) df)
          end
    end.


(** The special characters of regular expressions. *)
Definition regex_special (c : ascii) : bool :=
  bool_decide (c ∈ [".";"^";"$";"*";"+";"?";"{";"}";"[";"]";"\";"|";"(";")"]%char).

Fixpoint plain_pattern (pat : string) : bool :=
  match pat with
  | EmptyString => true
  | String c pat' => negb (regex_special c) && plain_pattern pat'
  end.

(** A regular-expression compiler for the examples. A pattern without a
    special character matches itself, so its search is the substring test;
    every other pattern is refused here, as [re.compile] refuses "a(" (but
    not, say, "a.b"). The theorems take the compiler as a parameter and do
    not depend on this one. *)
Definition compile_plain (pat : string) : option (string → bool) :=
  if plain_pattern pat then Some (str_contains pat) else None.

(** ** Strings: what [in] decides *)

Lemma app_String a (s t : string) : String a s +:+ t = String a (s +:+ t).
Proof. reflexivity. Qed.

Lemma app_empty_l (t : string) : "" +:+ t = t.
Proof. reflexivity. Qed.

Lemma startswith_spec needle hay :
  startswith needle hay = true ↔ ∃ suf, hay = needle +:+ suf.
Proof.
  revert hay. induction needle as [|a needle IH]; intros hay.
  - split; [intros _; by exists hay | done].
  - destruct hay as [|b hay]; simpl.
    + split; [done | intros [suf Hsuf]; discriminate Hsuf].
    + destruct (decide (a = b)) as [->|Hab].
      * rewrite IH. split; intros [suf Hsuf]; exists suf.
        -- by rewrite app_String, Hsuf.
        -- rewrite app_String in Hsuf. congruence.
      * split; [done | intros [suf Hsuf]].
        rewrite app_String in Hsuf. congruence.
Qed.

Lemma str_contains_spec k t : str_contains k t = true ↔ substring_of k t.
Proof.
  unfold substring_of. induction t as [|b t IH].
  - simpl. destruct (startswith k "") eqn:Hk.
    + apply startswith_spec in Hk as [suf Hsuf].
      split; [intros _; by exists "", suf | done].
    + split; [done | intros (pre & suf & Heq)].
      destruct pre; [|discriminate Heq].
      rewrite app_empty_l in Heq.
      assert (startswith k "" = true) as Hk' by (apply startswith_spec; eauto).
      congruence.
  - cbn [str_contains]. destruct (startswith k (String b t)) eqn:Hk.
    + apply startswith_spec in Hk as [suf Hsuf].
      split; [intros _; by exists "", suf | done].
    + rewrite IH. split.
      * intros (pre & suf & ->). by exists (String b pre), suf.
      * intros (pre & suf & Heq). destruct pre as [|a pre].
        -- rewrite app_empty_l in Heq.
           assert (startswith k (String b t) = true) as Hk'
             by (apply startswith_spec; eauto).
           congruence.
        -- rewrite app_String in Heq. injection Heq as _ ->. eauto.
Qed.

Lemma str_contains_empty t : str_contains "" t = true.
Proof. destruct t; reflexivity. Qed.

(** ** The loops of [classify_text] *)

Lemma scan_keywords_hit t c kws acc :
  (∃ kw, kw ∈ kws ∧ str_contains kw t = true) →
  scan_keywords t c kws acc = acc ++ [c].
Proof.
  induction kws as [|k kws IH]; intros (kw & Hin & Hkw).
  - by apply elem_of_nil in Hin.
  - simpl. destruct (str_contains k t) eqn:Hk; [done|].
    apply IH. apply elem_of_cons in Hin as [->|Hin]; [congruence | eauto].
Qed.

Lemma scan_keywords_miss t c kws acc :
  (∀ kw, kw ∈ kws → str_contains kw t = false) →
  scan_keywords t c kws acc = acc.
Proof.
  induction kws as [|k kws IH]; intros Hall; [done|].
  simpl. rewrite (Hall k) by left. apply IH. intros kw Hkw.
  apply Hall. by right.
Qed.

(** One category contributes its name once when it matches, nothing when it
    does not, however many of its keywords occur. *)
Lemma scan_keywords_set t c (ks : gset string) acc :
  scan_keywords t c (elements ks) acc
  = if decide (category_matches t ks) then acc ++ [c] else acc.
Proof.
  destruct (decide (category_matches t ks)) as [(kw & Hin & Hkw)|Hno].
  - apply scan_keywords_hit. exists kw. by rewrite elem_of_elements.
  - apply scan_keywords_miss. intros kw Hin%elem_of_elements.
    destruct (str_contains kw t) eqn:Hkw; [|done].
    destruct Hno. by exists kw.
Qed.

Lemma scan_categories_matched t items acc :
  scan_categories t items acc = acc ++ matched_categories t items.
Proof.
  unfold scan_categories, matched_categories.
  revert acc. induction items as [|[c ks] items IH]; intros acc; simpl.
  - by rewrite app_nil_r.
  - rewrite IH, scan_keywords_set.
    change (filter _ ((c, ks) :: items)) with
      (if decide (category_matches t ks)
       then (c, ks) :: filter (λ item, category_matches t item.2) items
       else filter (λ item, category_matches t item.2) items).
    destruct (decide (category_matches t ks)); [|done].
    by rewrite <- app_assoc.
Qed.

Lemma classify_text_matched {obj} `{PyObject obj} (text : value obj) (S : store) :
  classify_text text S = label (matched_categories (lower (str text)) S).
Proof. unfold classify_text. by rewrite scan_categories_matched. Qed.

Lemma elem_of_matched_categories t (S : store) c :
  c ∈ matched_categories t S ↔
  ∃ ks kw, (c, ks) ∈ S ∧ kw ∈ ks ∧ substring_of kw t.
Proof.
  unfold matched_categories. rewrite list_elem_of_fmap. split.
  - intros ([c' ks] & -> & [(kw & Hin & Hkw) HS]%list_elem_of_filter).
    exists ks, kw. by rewrite <- str_contains_spec.
  - intros (ks & kw & HS & Hin & Hkw). exists (c, ks). split; [done|].
    apply list_elem_of_filter. split; [|done].
    exists kw. by rewrite str_contains_spec.
Qed.

Lemma matched_categories_sublist t (S : store) :
  matched_categories t S `sublist_of` keys S.
Proof.
  unfold matched_categories, keys. apply fmap_sublist, sublist_filter.
Qed.

Lemma matched_categories_NoDup t (S : store) :
  NoDup (keys S) → NoDup (matched_categories t S).
Proof. intros Hnd. exact (sublist_NoDup _ _ Hnd (matched_categories_sublist t S)). Qed.

Lemma matched_categories_nil t (S : store) :
  matched_categories t S = [] ↔
  ∀ c ks kw, (c, ks) ∈ S → kw ∈ ks → ¬ substring_of kw t.
Proof.
  split.
  - intros Hnil c ks kw HS Hin Hkw.
    assert (c ∈ matched_categories t S) as Hc
      by (apply elem_of_matched_categories; eauto).
    rewrite Hnil in Hc. by apply elem_of_nil in Hc.
  - intros Hno. destruct (matched_categories t S) as [|c l] eqn:Heq; [done|].
    assert (c ∈ matched_categories t S) as Hc by (rewrite Heq; left).
    apply elem_of_matched_categories in Hc as (ks & kw & HS & Hin & Hkw).
    destruct (Hno c ks kw HS Hin Hkw).
Qed.

(** A name in the list is a contiguous part of the joined label. *)
Lemma app_assoc_string (a b c : string) : (a +:+ b) +:+ c = a +:+ b +:+ c.
Proof. induction a as [|x a IH]; [done|]. by rewrite !app_String, IH. Qed.

Lemma app_empty_r (a : string) : a +:+ "" = a.
Proof. induction a as [|x a IH]; [done|]. by rewrite app_String, IH. Qed.

Lemma substring_of_join sep l c : c ∈ l → substring_of c (join sep l).
Proof.
  induction l as [|x l IH]; intros Hc; [by apply elem_of_nil in Hc|].
  destruct l as [|y l].
  - apply list_elem_of_singleton in Hc as ->. exists "", "".
    by rewrite app_empty_l, app_empty_r.
  - change (join sep (x :: y :: l)) with (x +:+ sep +:+ join sep (y :: l)).
    apply elem_of_cons in Hc as [->|Hc].
    + by exists "", (sep +:+ join sep (y :: l)).
    + destruct (IH Hc) as (pre & suf & ->).
      exists (x +:+ sep +:+ pre), suf. by rewrite !app_assoc_string.
Qed.

(** What does hold of a keyword as it is stored: when the keyword itself
    occurs in the lowercased text, its category is in the label. *)
Lemma stored_keyword_match {obj} `{PyObject obj} (T : value obj) (S : store) c ks kw :
  (c, ks) ∈ S → kw ∈ ks → substring_of kw (lower (str T)) →
  c ∈ matched_categories (lower (str T)) S ∧ substring_of c (classify_text T S).
Proof.
  intros HS Hin Hkw.
  assert (c ∈ matched_categories (lower (str T)) S) as Hc
    by (apply elem_of_matched_categories; eauto).
  split; [done|]. rewrite classify_text_matched.
  destruct (matched_categories (lower (str T)) S) as [|x l] eqn:Heq.
  - by apply elem_of_nil in Hc.
  - by apply (substring_of_join ", ").
Qed.

(** ** Keywords and case *)

Lemma lower_char_idemp c : lower_char (lower_char c) = lower_char c.
Proof. by destruct c as [[] [] [] [] [] [] [] []]. Qed.

Lemma lower_idemp s : lower (lower s) = lower s.
Proof. induction s as [|c s IH]; [done|]. simpl. by rewrite lower_char_idemp, IH. Qed.

Lemma lower_app a b : lower (a +:+ b) = lower a +:+ lower b.
Proof. induction a as [|c a IH]; [done|]. rewrite app_String. simpl. by rewrite IH. Qed.

Lemma length_lower s : String.length (lower s) = String.length s.
Proof. induction s as [|c s IH]; [done|]. simpl. by rewrite IH. Qed.

Lemma app_inj_length (a a' b b' : string) :
  String.length a = String.length a' → a +:+ b = a' +:+ b' → a = a' ∧ b = b'.
Proof.
  revert a'. induction a as [|c a IH]; intros [|c' a']; simpl; try done.
  intros [= Hlen]. rewrite !app_String. intros [= -> Happ].
  by destruct (IH a' Hlen Happ) as [-> ->].
Qed.

(** What occurs in a lowercased text has no capital letter in it. *)
Lemma substring_of_lower_fixed k t : substring_of k (lower t) → lower k = k.
Proof.
  intros (pre & suf & Heq).
  assert (lower pre +:+ lower k +:+ lower suf = pre +:+ k +:+ suf) as Happ
    by by rewrite <- !lower_app, <- Heq, lower_idemp.
  apply app_inj_length in Happ as [_ Happ]; [|apply length_lower].
  by apply app_inj_length in Happ as [? _]; [|apply length_lower].
Qed.

(** So the test of the code, on the keyword as stored, is the
    case-insensitive test exactly for the keywords stored in lowercase. *)
Lemma stored_keyword_test kw t :
  substring_of kw (lower t) ↔ lower kw = kw ∧ substring_of (lower kw) (lower t).
Proof.
  split.
  - intros Hkw. pose proof (substring_of_lower_fixed kw t Hkw) as Hfix.
    by rewrite Hfix.
  - by intros [-> ?].
Qed.

Lemma lowercase_keyword_match {obj} `{PyObject obj} (T : value obj) (S : store) c ks kw :
  (c, ks) ∈ S → kw ∈ ks → lower kw = kw →
  substring_of (lower kw) (lower (str T)) →
  c ∈ matched_categories (lower (str T)) S ∧ substring_of c (classify_text T S).
Proof.
  intros HS Hin Hfix Hkw. apply (stored_keyword_match T S c ks kw); try done.
  by apply stored_keyword_test.
Qed.

(** No keyword occurring even up to case leaves the text unclassified. *)
Lemma unclassified_up_to_case {obj} `{PyObject obj} (T : value obj) (S : store) :
  (∀ c ks kw, (c, ks) ∈ S → kw ∈ ks →
     ¬ substring_of (lower kw) (lower (str T))) →
  classify_text T S = "unclassified".
Proof.
  intros Hno. rewrite classify_text_matched.
  assert (matched_categories (lower (str T)) S = []) as ->; [|done].
  apply matched_categories_nil. intros c ks kw HS Hin Hkw.
  apply (Hno c ks kw HS Hin). by apply stored_keyword_test in Hkw as [_ ?].
Qed.

(** ** The claims about [classify_text] *)

(** C1 (keyword-match soundness, case-insensitive), evaluated where it fails:
    the category holds the keyword "VIP", its lowercase "vip" is a substring
    of the lowercased text "vip sale", and the label is "unclassified": the
    keyword is compared as stored, only the text is lowercased. *)
Theorem uppercase_keyword_not_matched :
  ("exclusive_marketing", {["VIP"]}) ∈ vip_store
  ∧ "VIP" ∈ ({["VIP"]} : gset string)
  ∧ substring_of (lower "VIP") (lower (str vip_text))
  ∧ classify_text vip_text vip_store = "unclassified"
  ∧ ¬ substring_of "exclusive_marketing" (classify_text vip_text vip_store).
Proof.
  split_and!.
  - left.
  - set_solver.
  - by exists "", " sale".
  - by vm_compute.
  - rewrite <- str_contains_spec. by vm_compute.
Qed.

(** Such a store is what Add Category leaves when the keyword is typed in
    capitals. *)
Example vip_store_added :
  add_category "exclusive_marketing" "VIP" []
  = (vip_store, Success "Added category: exclusive_marketing").
Proof. by vm_compute. Qed.

(** C3 (unclassified completeness): when no keyword of any category of the
    store occurs as a substring of the lowercased text, in particular when
    the store is empty, the label is exactly "unclassified". *)
Theorem unclassified_complete {obj} `{PyObject obj} (T : value obj) (S : store) :
  (∀ c ks kw, (c, ks) ∈ S → kw ∈ ks → ¬ substring_of kw (lower (str T))) →
  classify_text T S = "unclassified".
Proof.
  intros Hno. rewrite classify_text_matched.
  by apply matched_categories_nil in Hno as ->.
Qed.

Lemma unclassified_complete_witness :
  classify_text (VStr "Plain product description" : value scalar)
    initial_dictionaries = "unclassified".
Proof.
  apply unclassified_complete, matched_categories_nil.
  vm_compute. reflexivity.
Defined.

Lemma unclassified_empty_store {obj} `{PyObject obj} (T : value obj) :
  classify_text T [] = "unclassified".
Proof. reflexivity. Qed.

(** C4 (result order and format): with at least one matched category the
    label is exactly the matched category names joined by ", ", and those
    are the categories having a keyword in the lowercased text, listed in
    the order of the store. *)
Theorem classify_text_order_format {obj} `{PyObject obj} (T : value obj) (S : store) :
  matched_categories (lower (str T)) S ≠ [] →
  classify_text T S = join ", " (matched_categories (lower (str T)) S)
  ∧ matched_categories (lower (str T)) S `sublist_of` keys S
  ∧ ∀ c, c ∈ matched_categories (lower (str T)) S ↔
         ∃ ks kw, (c, ks) ∈ S ∧ kw ∈ ks ∧ substring_of kw (lower (str T)).
Proof.
  intros Hne. split_and!.
  - rewrite classify_text_matched.
    by destruct (matched_categories (lower (str T)) S).
  - apply matched_categories_sublist.
  - apply elem_of_matched_categories.
Qed.

Lemma classify_text_order_format_witness :
  classify_text example_text example_store
  = join ", " ["urgency_marketing"; "exclusive_marketing"].
Proof.
  apply (classify_text_order_format example_text example_store).
  vm_compute. discriminate.
Defined.

(** C8 (input coercion): a value that is not a string is classified as its
    string representation is: the text scanned is the lowercased [str(x)]. *)
Theorem classify_text_coerces {obj} `{PyObject obj} (x : obj) (S : store) :
  classify_text (VObj x) S = classify_text (VStr (str (VObj x))) S
  ∧ classify_text (VObj x) S = label (matched_categories (lower (obj_str x)) S).
Proof. split; [reflexivity | exact (classify_text_matched (VObj x) S)]. Qed.

(** A missing cell reads "nan", an integer its decimal digits, a boolean
    "True" or "False": keywords match inside those as well. *)
Example classify_missing_cell :
  classify_text (VObj SNaN) [("finance", {["finance"; "nan"]})] = "finance"
  ∧ classify_text (VObj (SInt (-2024))) [("year", {["2024"]})] = "year"
  ∧ classify_text (VObj (SBool true)) [("flag", {["true"]})] = "flag".
Proof. by vm_compute. Qed.

(** C9 (worked example): with urgency_marketing = {hurry, act now} and
    exclusive_marketing = {vip}, in that order, the text "Act now, VIP members
    get early access" is labelled "urgency_marketing, exclusive_marketing";
    once exclusive_marketing is deleted it is labelled "urgency_marketing". *)
Theorem worked_example :
  classify_text example_text example_store
  = "urgency_marketing, exclusive_marketing"
  ∧ ∃ S' : store,
      delete_category "exclusive_marketing" example_store
      = Some (S', Success "Deleted exclusive_marketing!")
      ∧ S' = [("urgency_marketing", {["hurry"; "act now"]})]
      ∧ classify_text example_text S' = "urgency_marketing".
Proof.
  split; [by vm_compute|].
  eexists. split; [reflexivity|]. split; [reflexivity | by vm_compute].
Qed.

(** The list the two loops build on a lowercased text names no category
    twice. *)
Lemma label_of_scan_wf (text_lower : string) (S : store) :
  NoDup (keys S) →
  ∃ l : list string,
    NoDup l
    ∧ l `sublist_of` keys S
    ∧ (∀ c, count_occ String.eq_dec l c ≤ 1)
    ∧ label (scan_categories text_lower S [])
      = match l with [] => "unclassified" | _ :: _ => join ", " l end.
Proof.
  intros Hkeys. exists (matched_categories text_lower S).
  assert (NoDup (matched_categories text_lower S)) as Hnd
    by by apply matched_categories_NoDup.
  split_and!; [done | apply matched_categories_sublist | |].
  - by apply (List.NoDup_count_occ String.eq_dec), NoDup_ListNoDup.
  - by rewrite scan_categories_matched.
Qed.

(** On a string, and on an object whose [str] returns, the call returns
    what [classify_text] computes. *)
Lemma classify_text_call_value {obj} `{PyObject obj} (v : value obj) (S : store) :
  classify_text_call v S = inr (classify_text v S).
Proof. reflexivity. Qed.

(** C10, as stated, fails: [classify_text] does not return on every input
    value. On the integer 10^4300, which has 4301 digits, [str] raises
    [ValueError] and so does [classify_text]. *)
Lemma classify_text_raises :
  classify_text_call (PyInt (10 ^ 4300)) initial_dictionaries = inl ValueError.
Proof. by vm_compute. Qed.

(** C10, amended (totality and well-formed label): on every store, and on
    every input value on which [str] returns, [classify_text] returns a
    string, which is "unclassified" or the ", "-join of a list of category
    names of the store, in the store's order, in which no name occurs
    twice, however many keywords of a category match; on an input value on
    which [str] raises, [classify_text] raises that exception. *)
Theorem classify_text_call_label_wf {A} `{HasStr A} (x : A) (S : store) :
  NoDup (keys S) →
  (∀ e, call_str x = inl e → classify_text_call x S = inl e)
  ∧ (∀ s, call_str x = inr s →
       ∃ l : list string,
         NoDup l
         ∧ l `sublist_of` keys S
         ∧ (∀ c, count_occ String.eq_dec l c ≤ 1)
         ∧ classify_text_call x S
           = inr (match l with
                  | [] => "unclassified"
                  | _ :: _ => join ", " l
                  end)).
Proof.
  intros Hkeys. unfold classify_text_call. split.
  - by intros e ->.
  - intros s ->.
    destruct (label_of_scan_wf (lower s) S Hkeys) as (l & Hnd & Hsub & Hocc & Hl).
    exists l. split_and!; [done..|]. simpl. by rewrite Hl.
Qed.

Lemma classify_text_call_label_wf_witness :
  ∃ l : list string,
    NoDup l
    ∧ l `sublist_of` keys initial_dictionaries
    ∧ (∀ c, count_occ String.eq_dec l c ≤ 1)
    ∧ classify_text_call
        (VStr "Hurry: limited time, limited edition" : value scalar)
        initial_dictionaries
      = inr (match l with
             | [] => "unclassified"
             | _ :: _ => join ", " l
             end).
Proof.
  assert (NoDup (keys initial_dictionaries)) as Hnd
    by (apply (bool_decide_unpack _); by vm_compute).
  destruct (classify_text_call_label_wf
              (VStr "Hurry: limited time, limited edition" : value scalar)
              initial_dictionaries Hnd) as [_ Hret].
  by apply (Hret "Hurry: limited time, limited edition").
Defined.

(** An integer within the limit is classified by its digits. *)
Example classify_text_call_int :
  classify_text_call (PyInt 2024) [("year", {["2024"]})] = inr "year".
Proof. by vm_compute. Qed.

(** Several keywords of urgency_marketing occur in this text; the category
    is listed once. *)
Example several_keywords_one_occurrence :
  classify_text (VStr "Hurry: limited time, limited edition" : value scalar)
    initial_dictionaries = "urgency_marketing".
Proof. by vm_compute. Qed.

(** ** [classify_text] leaves the dictionaries as they are *)

Lemma visit_items_run t items acc σ :
  visit_items t items acc σ
  = (fold_left (λ acc item, scan_keywords t item.1 item.2 acc) items acc, σ).
Proof.
  revert acc. induction items as [|item items IH]; intros acc; [done|].
  cbn [visit_items]. unfold bind, visit_category, ret. by rewrite IH.
Qed.

Lemma fold_left_items t (S : store) acc :
  fold_left (λ acc item, scan_keywords t item.1 item.2 acc)
    (prod_map id elements <$> S) acc
  = scan_categories t S acc.
Proof.
  unfold scan_categories. revert acc.
  induction S as [|[c ks] S IH]; intros acc; [done|]. simpl. apply IH.
Qed.

(** The order in which a set yields its keywords does not show in the
    result: two enumerations with the same members give the same list. *)
Lemma scan_keywords_order t c kws kws' acc :
  (∀ kw, kw ∈ kws ↔ kw ∈ kws') →
  scan_keywords t c kws acc = scan_keywords t c kws' acc.
Proof.
  intros Hsame.
  destruct (decide (Exists (λ kw, str_contains kw t = true) kws)) as [Hex|Hno].
  - apply Exists_exists in Hex as (kw & Hin & Hkw).
    rewrite !scan_keywords_hit; [done | exists kw | exists kw]; split; try done.
    by apply Hsame.
  - rewrite !scan_keywords_miss; [done | |]; intros kw Hin;
      destruct (str_contains kw t) eqn:Hkw; try done;
      destruct Hno; apply Exists_exists; exists kw; split; try done.
    by apply Hsame.
Qed.

(** C7 (determinism and purity): run against the dictionaries object,
    [classify_text] returns the label and leaves the object as it was, so a
    second call on the same text returns the same label. *)
Theorem classify_text_pure {obj} `{PyObject obj} (T : value obj) (S : store) :
  classify_text_st T S = (classify_text T S, S)
  ∧ ∀ l1 S1 l2 S2,
      classify_text_st T S = (l1, S1) →
      classify_text_st T S1 = (l2, S2) →
      S1 = S ∧ S2 = S ∧ l1 = l2.
Proof.
  assert (∀ σ, classify_text_st T σ = (classify_text T σ, σ)) as Hrun.
  { intros σ. unfold classify_text_st, bind, dict_items, ret.
    by rewrite visit_items_run, fold_left_items. }
  split; [apply Hrun|].
  intros l1 S1 l2 S2. rewrite Hrun. intros [= <- <-].
  rewrite Hrun. by intros [= <- <-].
Qed.

(** ** [strip] and [split] do what the text methods do *)

Lemma lstrip_spec s :
  ∃ l, s = l +:+ lstrip s ∧ all_space l = true
       ∧ ∀ c r, lstrip s = String c r → isspace c = false.
Proof.
  induction s as [|a s (l & Hl & Hsp & Hfirst)].
  - by exists "".
  - simpl. destruct (isspace a) eqn:Ha.
    + exists (String a l). split_and!; [| |done].
      * by rewrite app_String, <- Hl.
      * simpl. by rewrite Ha.
    + exists "". split_and!; [done..|]. by intros c r [= <- _].
Qed.

Lemma rstrip_spec s :
  ∃ r, s = rstrip s +:+ r ∧ all_space r = true
       ∧ ∀ p c, rstrip s = p +:+ String c "" → isspace c = false.
Proof.
  induction s as [|a s (r & Hr & Hsp & Hlast)].
  - exists "". split_and!; [done..|]. intros [|??] ? [=].
  - simpl. destruct (rstrip s) as [|b t] eqn:Hs.
    + destruct (isspace a) eqn:Ha.
      * exists (String a r). split_and!.
        -- rewrite app_empty_l in Hr. by rewrite Hr.
        -- simpl. by rewrite Ha.
        -- intros [|??] ? [=].
      * exists r. split_and!; [| done |].
        -- rewrite app_empty_l in Hr. by rewrite Hr.
        -- intros [|x p] c; rewrite ?app_empty_l, ?app_String.
           ++ by intros [= <-].
           ++ intros [= _ Hp]. by destruct p.
    + exists r. split_and!; [| done |].
      * by rewrite app_String, <- Hr.
      * intros [|x p] c; rewrite ?app_empty_l, ?app_String.
        -- intros [=].
        -- intros [= _ Hp]. by apply (Hlast p).
Qed.

(** [strip] removes a run of whitespace at each end and nothing else; what
    is left neither starts nor ends with whitespace. *)
Lemma strip_spec s :
  ∃ l r, s = l +:+ strip s +:+ r
         ∧ all_space l = true ∧ all_space r = true
         ∧ (∀ c t, strip s = String c t → isspace c = false)
         ∧ (∀ p c, strip s = p +:+ String c "" → isspace c = false).
Proof.
  unfold strip.
  destruct (lstrip_spec s) as (l & Hl & Hlsp & Hfirst).
  destruct (rstrip_spec (lstrip s)) as (r & Hr & Hrsp & Hlast).
  exists l, r. split_and!; [by rewrite <- Hr | done | done | | done].
  intros c t Hc. destruct (lstrip s) as [|a u] eqn:Hu; [done|].
  assert (a = c) as ->.
  { simpl in Hc. destruct (rstrip u); [destruct (isspace a)|]; congruence. }
  by apply (Hfirst c u).
Qed.

Lemma split_nonempty sep s : split sep s ≠ [].
Proof.
  destruct s as [|c s]; simpl; [done|].
  destruct (decide (c = sep)); [done|]. by destruct (split sep s).
Qed.

(** The pieces of [split], joined by the separator, give the text back. *)
Lemma join_split sep s : join (String sep "") (split sep s) = s.
Proof.
  induction s as [|c s IH]; [done|]. simpl.
  destruct (decide (c = sep)) as [->|Hc].
  - pose proof (split_nonempty sep s) as Hne.
    destruct (split sep s) as [|x l]; [done|].
    change (join _ ("" :: x :: l)) with ("" +:+ String sep "" +:+ join (String sep "") (x :: l)).
    by rewrite IH.
  - pose proof (split_nonempty sep s) as Hne.
    destruct (split sep s) as [|x l]; [done|].
    destruct l as [|y l]; simpl in *; [by rewrite IH|].
    by rewrite app_String, <- IH.
Qed.

Lemma truthy_spec s : truthy s = true ↔ s ≠ "".
Proof. by destruct s. Qed.

(** ** Dictionaries *)

Section DictFacts.
Context {V : Type}.
Implicit Types (d : dict V) (k : string) (v : V).

Lemma getitem_setitem d k v : getitem (setitem d k v) k = Some v.
Proof.
  induction d as [|[k' v'] d IH]; simpl.
  - by rewrite decide_True.
  - destruct (decide (k' = k)) as [->|Hk]; simpl.
    + by rewrite decide_True.
    + by rewrite decide_False.
Qed.

Lemma getitem_setitem_ne d k k' v :
  k ≠ k' → getitem (setitem d k v) k' = getitem d k'.
Proof.
  intros Hne. induction d as [|[k0 v0] d IH]; simpl.
  - by rewrite decide_False.
  - destruct (decide (k0 = k)) as [->|Hk]; simpl.
    + by rewrite !decide_False.
    + by rewrite IH.
Qed.

Lemma getitem_Some d k v : getitem d k = Some v → (k, v) ∈ d.
Proof.
  induction d as [|[k' v'] d IH]; simpl; [done|].
  destruct (decide (k' = k)) as [->|Hk].
  - intros [= ->]. left.
  - intros Hd. right. by apply IH.
Qed.

Lemma getitem_None d k : getitem d k = None ↔ k ∉ keys d.
Proof.
  unfold keys. induction d as [|[k' v'] d IH]; simpl.
  - split; [intros _; apply not_elem_of_nil | done].
  - rewrite not_elem_of_cons. destruct (decide (k' = k)) as [->|Hk].
    + split; [done | by intros [? _]].
    + rewrite IH. split; [by intros ?; split | by intros [_ ?]].
Qed.

(** Assignment keeps the place of a key that is there and appends a key
    that is not. *)
Lemma keys_setitem d k v :
  keys (setitem d k v) = if decide (k ∈ keys d) then keys d else keys d ++ [k].
Proof.
  unfold keys. induction d as [|[k' v'] d IH]; csimpl.
  - done.
  - destruct (decide (k' = k)) as [->|Hk]; csimpl.
    + by rewrite decide_True by left.
    + rewrite IH. destruct (decide (k ∈ d.*1)) as [Hin|Hin].
      * by rewrite decide_True by by right.
      * rewrite decide_False; [done|].
        rewrite not_elem_of_cons. by split.
Qed.

Lemma NoDup_keys_setitem d k v : NoDup (keys d) → NoDup (keys (setitem d k v)).
Proof.
  intros Hnd. rewrite keys_setitem. destruct (decide (k ∈ keys d)); [done|].
  apply NoDup_app. split_and!; [done | | apply NoDup_singleton].
  by intros x Hx ->%list_elem_of_singleton.
Qed.

Lemma elem_of_keys_delitem d k d' k' :
  delitem d k = Some d' → k' ∈ keys d' → k' ∈ keys d.
Proof.
  unfold keys. revert d'. induction d as [|[k0 v0] d IH]; intros d'; simpl; [done|].
  destruct (decide (k0 = k)) as [->|Hk].
  - intros [= <-] Hin. by right.
  - destruct (delitem d k) as [d0|] eqn:Hdel; [|done].
    intros [= <-]. simpl. rewrite !elem_of_cons.
    intros [->|Hin]; [by left | right; by apply (IH d0)].
Qed.

(** [del] removes the key and nothing else. *)
Lemma delitem_Some d k d' :
  NoDup (keys d) → delitem d k = Some d' →
  NoDup (keys d') ∧ getitem d' k = None
  ∧ ∀ k', k' ≠ k → getitem d' k' = getitem d k'.
Proof.
  revert d'. induction d as [|[k0 v0] d IH]; intros d'; simpl; [done|].
  intros [Hk0 Hnd]%NoDup_cons. destruct (decide (k0 = k)) as [->|Hk].
  - intros [= <-]. split_and!; [done | by apply getitem_None |].
    intros k' Hk'. by rewrite decide_False.
  - destruct (delitem d k) as [d0|] eqn:Hdel; [|done].
    intros [= <-]. destruct (IH d0 Hnd eq_refl) as (Hnd0 & Hget & Hother).
    split_and!.
    + simpl. apply NoDup_cons. split; [|done].
      intros Hin. apply Hk0. by apply (elem_of_keys_delitem d k d0).
    + simpl. by rewrite decide_False.
    + intros k' Hk'. simpl. destruct (decide (k0 = k')); [done | by apply Hother].
Qed.

Lemma delitem_None d k : delitem d k = None ↔ k ∉ keys d.
Proof.
  unfold keys. induction d as [|[k0 v0] d IH]; simpl.
  - split; [intros _; apply not_elem_of_nil | done].
  - rewrite not_elem_of_cons. destruct (decide (k0 = k)) as [->|Hk].
    + split; [done | by intros [? _]].
    + destruct (delitem d k); simpl.
      * split; [done | intros [_ Hin]]. by apply IH in Hin.
      * split; [intros _; split; [done | by apply IH] | done].
Qed.
End DictFacts.

(** ** The keyword sets the sidebar stores *)

(** The stored keywords are the lines of the input, each stripped, the
    blank ones left out. *)
Lemma elem_of_parse_keywords text k :
  k ∈ parse_keywords text ↔
  ∃ line, line ∈ split "010"%char text ∧ k = strip line ∧ k ≠ "".
Proof.
  unfold parse_keywords. rewrite elem_of_list_to_set, list_elem_of_fmap.
  split.
  - intros (line & -> & [Hne Hin]%list_elem_of_filter).
    exists line. split_and!; [done..|].
    by apply truthy_spec, Is_true_true.
  - intros (line & Hin & -> & Hne). exists line. split; [done|].
    apply list_elem_of_filter. split; [|done].
    by apply Is_true_true, truthy_spec.
Qed.

Lemma parse_keywords_nonempty text :
  parse_keywords text ≠ ∅ ↔ has_keyword_line text.
Proof.
  unfold has_keyword_line. split.
  - intros [k Hk]%set_choose_L.
    apply elem_of_parse_keywords in Hk as (line & Hin & -> & Hne).
    by exists line.
  - intros (line & Hin & Hne) Hempty.
    assert (strip line ∈ parse_keywords text) as Hk
      by (apply elem_of_parse_keywords; by exists line).
    rewrite Hempty in Hk. by apply not_elem_of_empty in Hk.
Qed.

(** No stored keyword is empty or carries whitespace at either end. *)
Lemma parse_keywords_trimmed text k :
  k ∈ parse_keywords text →
  k ≠ ""
  ∧ (∀ c t, k = String c t → isspace c = false)
  ∧ (∀ p c, k = p +:+ String c "" → isspace c = false).
Proof.
  intros (line & _ & -> & Hne)%elem_of_parse_keywords.
  destruct (strip_spec line) as (_ & _ & _ & _ & _ & Hfirst & Hlast).
  done.
Qed.

(** C5 (Add Category: error atomicity and overwrite): with an empty name or
    an empty keywords input the action reports an error and the store is
    the one it was; otherwise it reports success and the store maps the
    name to the set of the stripped, non-blank lines of the input, whatever
    the name was mapped to before, every other category being as it was. *)
Theorem add_category_spec (name text : string) (d : store) :
  (name = "" ∨ text = "" →
   add_category name text d
   = (d, Error "Please provide both category name and keywords."))
  ∧ (name ≠ "" → text ≠ "" →
     ∃ d' ks,
       add_category name text d = (d', Success ("Added category: " +:+ name))
       ∧ getitem d' name = Some ks
       ∧ (∀ k, k ∈ ks ↔
               ∃ line, line ∈ split "010"%char text ∧ k = strip line ∧ k ≠ "")
       ∧ (∀ c, c ≠ name → getitem d' c = getitem d c)
       ∧ keys d' = if decide (name ∈ keys d) then keys d else keys d ++ [name]).
Proof.
  unfold add_category. split.
  - intros [-> | ->]; [done|]. by rewrite andb_false_r.
  - intros Hname%truthy_spec Htext%truthy_spec. rewrite Hname, Htext. simpl.
    eexists _, _. split_and!; [done | apply getitem_setitem | | |].
    + apply elem_of_parse_keywords.
    + intros c Hc. by apply getitem_setitem_ne.
    + apply keys_setitem.
Qed.

(** Adding under a name that is taken replaces the keywords in place. *)
Example add_category_overwrites :
  add_category "urgency_marketing" (" rush " +:+ String "010" "" +:+ "  ") example_store
  = ([("urgency_marketing", {["rush"]}); ("exclusive_marketing", {["vip"]})],
     Success "Added category: urgency_marketing").
Proof. by vm_compute. Qed.

(** C2, as stated, fails: the Update button stores whatever the text area
    parses to; with the text area emptied, the category is left with the
    empty keyword set. *)
Lemma update_stores_empty_set :
  ∃ d' : store,
    update_category "urgency_marketing" "" initial_dictionaries
    = (d', Success "Updated urgency_marketing!")
    ∧ getitem d' "urgency_marketing" = Some ∅.
Proof. eexists. split; [reflexivity | by vm_compute]. Qed.

(** C2, amended (store invariant after edits): the keys of the store stay
    pairwise distinct under Add Category, Update and Delete; and when the
    keywords input has a line that is not blank, the set stored by an
    accepted Add Category, and by Update, is not empty. *)
Theorem store_invariant_after_edit (category : string) (d : store) :
  NoDup (keys d) →
  (∀ text d' fb, add_category category text d = (d', fb) → NoDup (keys d'))
  ∧ (∀ text d' fb, update_category category text d = (d', fb) → NoDup (keys d'))
  ∧ (∀ d' fb, delete_category category d = Some (d', fb) → NoDup (keys d'))
  ∧ (∀ text, has_keyword_line text →
       (∀ d' msg, add_category category text d = (d', Success msg) →
          ∃ ks, getitem d' category = Some ks ∧ ks ≠ ∅)
       ∧ (∀ d' fb, update_category category text d = (d', fb) →
          ∃ ks, getitem d' category = Some ks ∧ ks ≠ ∅)).
Proof.
  intros Hnd. split_and!.
  - intros text d' fb. unfold add_category.
    destruct (truthy category && truthy text); intros [= <- _]; [|done].
    by apply NoDup_keys_setitem.
  - intros text d' fb [= <- _]. by apply NoDup_keys_setitem.
  - intros d' fb. unfold delete_category.
    destruct (delitem d category) as [d0|] eqn:Hdel; [|done].
    intros [= <- _]. by destruct (delitem_Some d category d0 Hnd Hdel).
  - intros text Hline%parse_keywords_nonempty. split.
    + intros d' msg. unfold add_category.
      destruct (truthy category && truthy text); intros [= <- _].
      exists (parse_keywords text). split; [apply getitem_setitem | done].
    + intros d' fb [= <- _].
      exists (parse_keywords text). split; [apply getitem_setitem | done].
Qed.

Lemma store_invariant_after_edit_witness :
  NoDup (keys (add_category "scarcity" "only a few left" initial_dictionaries).1)
  ∧ ∃ ks, getitem (add_category "scarcity" "only a few left" initial_dictionaries).1
            "scarcity" = Some ks ∧ ks ≠ ∅.
Proof.
  assert (NoDup (keys initial_dictionaries)) as Hnd
    by (apply (bool_decide_unpack _); by vm_compute).
  destruct (store_invariant_after_edit "scarcity" initial_dictionaries Hnd)
    as (Hadd & _ & _ & Hset).
  split.
  - by apply (Hadd "only a few left" _ (Success "Added category: scarcity")).
  - assert (has_keyword_line "only a few left") as Hline
      by (exists "only a few left"; split; [left | by vm_compute]).
    destruct (Hset "only a few left" Hline) as [Hadded _].
    by apply (Hadded _ "Added category: scarcity").
Defined.

(** Add Category tests the raw input only: a keywords input of blanks is
    accepted and stores the empty set. *)
Example add_category_blank_keywords :
  add_category "scarcity" "   " example_store
  = (example_store ++ [("scarcity", ∅)], Success "Added category: scarcity").
Proof. by vm_compute. Qed.

(** ** The batch classification *)

Lemma cell_setitem {obj} (df : dataframe obj) column col i :
  cell (setitem df column col) column i = col !! i.
Proof. unfold cell. by rewrite getitem_setitem. Qed.

Lemma cell_setitem_ne {obj} (df : dataframe obj) column column' col i :
  column ≠ column' → cell (setitem df column col) column' i = cell df column' i.
Proof. intros Hne. unfold cell. by rewrite getitem_setitem_ne. Qed.

(** With an empty store the button classifies nothing. *)
Lemma classify_button_empty_store {obj} `{PyObject obj} (df : dataframe obj) text_column :
  classify_button df text_column []
  = (df, Error "Please add at least one category with keywords before classifying.").
Proof. reflexivity. Qed.

(** C6, as stated, fails: a table that comes with a column named
    classification (the file the tool itself offers for download is one)
    has that original field replaced. *)
Lemma classify_all_overwrites_column :
  ∃ df',
    classify_all labelled_table "text" example_store = Some df'
    ∧ keys df' = keys labelled_table
    ∧ cell labelled_table "classification" 0 = Some (VStr "reviewed")
    ∧ cell df' "classification" 0 = Some (VStr "urgency_marketing").
Proof. eexists. split; [reflexivity | by vm_compute]. Qed.

(** C6, amended (batch frame property): the batch classification puts, in
    each row, the label of that row's text value in the column
    classification, which becomes the last column when the table has none
    of that name and replaces the column of that name otherwise; the rows
    keep their order and every other field of every row is as it was. *)
Theorem classify_all_frame {obj} `{PyObject obj} (df : dataframe obj)
    (text_column : string) (texts : list (value obj)) (dictionaries : store) :
  getitem df text_column = Some texts →
  ∃ df',
    classify_all df text_column dictionaries = Some df'
    ∧ keys df' = (if decide ("classification" ∈ keys df) then keys df
                  else keys df ++ ["classification"])
    ∧ getitem df' "classification"
      = Some ((λ x, VStr (classify_text x dictionaries)) <$> texts)
    ∧ (∀ i, cell df' "classification" i
            = (λ x, VStr (classify_text x dictionaries)) <$> cell df text_column i)
    ∧ (∀ column i, column ≠ "classification" →
         cell df' column i = cell df column i).
Proof.
  intros Htexts. unfold classify_all. rewrite Htexts. simpl.
  eexists. split_and!; [done | apply keys_setitem | apply getitem_setitem | |].
  - intros i. rewrite cell_setitem, list_lookup_fmap.
    unfold cell. by rewrite Htexts.
  - intros column i Hne. by apply cell_setitem_ne.
Qed.

Lemma classify_all_frame_witness :
  ∃ df',
    classify_all sample_table "text" example_store = Some df'
    ∧ keys df' = ["id"; "text"; "classification"]
    ∧ getitem df' "classification"
      = Some [VStr "exclusive_marketing"; VStr "unclassified"].
Proof.
  destruct (classify_all_frame sample_table "text"
              [VStr "VIP early access"; VObj SNaN] example_store eq_refl)
    as (df' & Hrun & Hkeys & Hcol & _).
  exists df'. split_and!; [done | |].
  - rewrite Hkeys. by vm_compute.
  - rewrite Hcol. by vm_compute.
Defined.

(** ** More on the classifier *)

Lemma elem_of_getitem {V} (d : dict V) k v :
  NoDup (keys d) → (k, v) ∈ d ↔ getitem d k = Some v.
Proof.
  intros Hnd. split; [|apply getitem_Some].
  unfold keys in Hnd. induction d as [|[k' v'] d IH]; csimpl in *.
  - by intros ?%elem_of_nil.
  - apply NoDup_cons in Hnd as [Hk' Hnd].
    intros [[= -> ->]|Hin]%elem_of_cons; simpl.
    + by rewrite decide_True.
    + rewrite decide_False; [by apply IH|].
      intros ->. apply Hk'. by apply (list_elem_of_fmap_2 fst) in Hin.
Qed.

(** With distinct keys, a category is matched exactly when the keyword set
    it is mapped to has a keyword in the text. *)
Lemma elem_of_matched_getitem t (S : store) c :
  NoDup (keys S) →
  c ∈ matched_categories t S ↔
  ∃ ks, getitem S c = Some ks ∧ category_matches t ks.
Proof.
  intros Hnd. unfold matched_categories. rewrite list_elem_of_fmap. split.
  - intros ([c' ks] & -> & [Hm HS]%list_elem_of_filter).
    exists ks. split; [by apply elem_of_getitem | done].
  - intros (ks & Hget & Hm). exists (c, ks). split; [done|].
    apply list_elem_of_filter. split; [done | by apply getitem_Some].
Qed.

Lemma substring_of_trans a b c :
  substring_of a b → substring_of b c → substring_of a c.
Proof.
  intros (p1 & s1 & ->) (p2 & s2 & ->).
  exists (p2 +:+ p1), (s1 +:+ s2). by rewrite !app_assoc_string.
Qed.

Lemma category_matches_mono t t' ks :
  substring_of t t' → category_matches t ks → category_matches t' ks.
Proof.
  intros Htt' (kw & Hin & Hkw). exists kw. split; [done|].
  apply str_contains_spec. apply str_contains_spec in Hkw.
  by apply (substring_of_trans kw t t').
Qed.

Lemma filter_sublist_impl {A} (P Q : A → Prop)
    `{∀ x, Decision (P x)} `{∀ x, Decision (Q x)} (l : list A) :
  (∀ x, P x → Q x) → filter P l `sublist_of` filter Q l.
Proof.
  intros HPQ. induction l as [|x l IH]; [done|].
  rewrite !filter_cons. destruct (decide (P x)) as [HP|HP].
  - rewrite decide_True by by apply HPQ. by apply sublist_skip.
  - destruct (decide (Q x)); [by apply sublist_cons | done].
Qed.

(** X1 (the sentinel and a category of the same name): the label is
    "unclassified" exactly when no category matched or the only category
    that matched is itself named "unclassified". *)
Theorem label_unclassified_iff {obj} `{PyObject obj} (T : value obj) (S : store) :
  classify_text T S = "unclassified" ↔
  matched_categories (lower (str T)) S = []
  ∨ matched_categories (lower (str T)) S = ["unclassified"].
Proof.
  rewrite classify_text_matched.
  destruct (matched_categories (lower (str T)) S) as [|x [|y l]].
  - split; [by left | done].
  - simpl. split; [intros ->; by right | by intros [|[= ->]]].
  - split; [|by intros [|]]. intros Heq.
    assert (substring_of ", " "unclassified") as Hsub.
    { rewrite <- Heq. by exists x, (join ", " (y :: l)). }
    apply str_contains_spec in Hsub. by vm_compute in Hsub.
Qed.

(** X2 (case of the text): a text and its lowercase form get the same
    label. *)
Theorem classify_text_case_blind {obj} `{PyObject obj} (T : value obj) (S : store) :
  classify_text (VStr (lower (str T))) S = classify_text T S.
Proof. unfold classify_text. simpl. by rewrite lower_idemp. Qed.

(** X3 (keywords with a capital letter are dead): a category all of whose
    keywords change under lowercasing (and so a category with no keyword)
    is matched by no text at all. *)
Theorem capital_keywords_never_match {obj} `{PyObject obj}
    (T : value obj) (S : store) (c : string) (ks : gset string) :
  NoDup (keys S) → getitem S c = Some ks →
  (∀ kw, kw ∈ ks → lower kw ≠ kw) →
  c ∉ matched_categories (lower (str T)) S.
Proof.
  intros Hnd Hget Hcap (ks' & Hget' & kw & Hin & Hkw)%elem_of_matched_getitem;
    [|done].
  assert (ks' = ks) as -> by congruence.
  apply (Hcap kw Hin). apply (substring_of_lower_fixed kw (str T)).
  by apply str_contains_spec.
Qed.

Lemma capital_keywords_never_match_witness :
  "exclusive_marketing" ∉ matched_categories (lower (str vip_text)) vip_store.
Proof.
  apply (capital_keywords_never_match vip_text vip_store
           "exclusive_marketing" {["VIP"]}).
  - apply (bool_decide_unpack _). by vm_compute.
  - reflexivity.
  - intros kw ->%elem_of_singleton. by vm_compute.
Defined.

(** X4 (longer texts match more): when the lowercased form of one text
    occurs inside the lowercased form of another, the categories matched by
    the first are matched by the second, in the same order. *)
Theorem matched_categories_mono {obj} `{PyObject obj} (T T' : value obj) (S : store) :
  substring_of (lower (str T)) (lower (str T')) →
  matched_categories (lower (str T)) S
  `sublist_of` matched_categories (lower (str T')) S.
Proof.
  intros Hsub. unfold matched_categories.
  apply fmap_sublist, filter_sublist_impl. intros [c ks]. simpl.
  by apply category_matches_mono.
Qed.

Lemma matched_categories_mono_witness :
  matched_categories (lower (str (VStr "ACT NOW" : value scalar))) example_store
  `sublist_of` matched_categories (lower (str example_text)) example_store.
Proof.
  apply (matched_categories_mono (VStr "ACT NOW") example_text).
  by exists "", ", vip members get early access".
Defined.

(** ** The sidebar actions and the labels *)

Lemma filter_all {A} (P : A → Prop) `{∀ x, Decision (P x)} (l : list A) :
  (∀ x, x ∈ l → P x) → filter P l = l.
Proof.
  induction l as [|x l IH]; intros Hall; [done|].
  rewrite filter_cons_True by (apply Hall; left).
  f_equal. apply IH. intros y Hy. apply Hall. by right.
Qed.

Lemma keys_delitem {V} (d d' : dict V) k :
  NoDup (keys d) → delitem d k = Some d' →
  keys d' = filter (λ k', k' ≠ k) (keys d).
Proof.
  unfold keys. revert d'. induction d as [|[k0 v0] d IH]; intros d'; csimpl; [done|].
  intros [Hk0 Hnd]%NoDup_cons. destruct (decide (k0 = k)) as [->|Hk].
  - intros [= <-]. rewrite filter_cons_False by (by intros ?).
    symmetry. apply filter_all. by intros x Hx ->.
  - destruct (delitem d k) as [d0|] eqn:Hdel; [|done].
    intros [= <-]. csimpl. rewrite filter_cons_True by done.
    f_equal. by apply IH.
Qed.

Lemma matched_categories_cons t c ks (S : store) :
  matched_categories t ((c, ks) :: S)
  = if decide (category_matches t ks) then c :: matched_categories t S
    else matched_categories t S.
Proof.
  unfold matched_categories.
  change (filter _ ((c, ks) :: S)) with
    (if decide (category_matches t ks)
     then (c, ks) :: filter (λ item, category_matches t item.2) S
     else filter (λ item, category_matches t item.2) S).
  by destruct (decide (category_matches t ks)).
Qed.

(** X5 (an edit is local): after Update, or an accepted Add Category, of
    one category, that category is matched exactly when one of the newly
    stored keywords occurs in the text, and every other category is matched
    exactly when it was before. *)
Theorem edit_category_local (t c text : string) (S S' : store) (fb : feedback) :
  NoDup (keys S) →
  (update_category c text S = (S', fb)
   ∨ ∃ msg, fb = Success msg ∧ add_category c text S = (S', fb)) →
  (c ∈ matched_categories t S' ↔ category_matches t (parse_keywords text))
  ∧ ∀ c', c' ≠ c → c' ∈ matched_categories t S' ↔ c' ∈ matched_categories t S.
Proof.
  intros Hnd Hedit.
  assert (S' = setitem S c (parse_keywords text)) as ->.
  { destruct Hedit as [[= <- _]|(msg & -> & Hadd)]; [done|].
    unfold add_category in Hadd.
    by destruct (truthy c && truthy text); injection Hadd as <-. }
  pose proof (NoDup_keys_setitem S c (parse_keywords text) Hnd) as Hnd'.
  split.
  - rewrite elem_of_matched_getitem, getitem_setitem by done. split.
    + by intros (ks & [= <-] & Hm).
    + intros Hm. by exists (parse_keywords text).
  - intros c' Hc'. rewrite !elem_of_matched_getitem by done.
    by rewrite getitem_setitem_ne.
Qed.

Lemma edit_category_local_witness :
  ("urgency_marketing" ∈ matched_categories "rush hour"
      (update_category "urgency_marketing" "rush" example_store).1
   ↔ category_matches "rush hour" (parse_keywords "rush"))
  ∧ ∀ c', c' ≠ "urgency_marketing" →
      c' ∈ matched_categories "rush hour"
             (update_category "urgency_marketing" "rush" example_store).1
      ↔ c' ∈ matched_categories "rush hour" example_store.
Proof.
  apply (edit_category_local "rush hour" "urgency_marketing" "rush"
           example_store _ (Success "Updated urgency_marketing!")).
  - apply (bool_decide_unpack _). by vm_compute.
  - by left.
Defined.

(** X6 (Delete and the labels): after Delete of a category the matched
    categories of any text are the former ones without it, in the same
    order. *)
Theorem delete_category_matched (t c : string) (S S' : store) (fb : feedback) :
  NoDup (keys S) → delete_category c S = Some (S', fb) →
  matched_categories t S' = filter (λ c', c' ≠ c) (matched_categories t S).
Proof.
  unfold delete_category, keys.
  destruct (delitem S c) as [S0|] eqn:Hdel; [|done].
  intros Hnd [= <- _]. clear fb. revert S0 Hdel Hnd.
  induction S as [|[k0 v0] S IH]; intros S0; csimpl; [done|].
  intros Hdel [Hk0 Hnd]%NoDup_cons. rewrite matched_categories_cons.
  destruct (decide (k0 = c)) as [->|Hk].
  - injection Hdel as <-.
    assert (filter (λ c', c' ≠ c) (matched_categories t S)
            = matched_categories t S) as Hid.
    { apply filter_all. intros x Hx ->. apply Hk0.
      by apply (elem_of_sublist _ _ _ Hx (matched_categories_sublist t S)). }
    destruct (decide (category_matches t v0)); [|done].
    by rewrite filter_cons_False by (by intros ?).
  - destruct (delitem S c) as [S1|] eqn:Hdel1; [|done].
    injection Hdel as <-. rewrite matched_categories_cons.
    destruct (decide (category_matches t v0)).
    + rewrite filter_cons_True by done. f_equal. by apply IH.
    + by apply IH.
Qed.

Lemma delete_category_matched_witness :
  matched_categories "act now, vip"
    [("urgency_marketing", {["hurry"; "act now"]})]
  = filter (λ c', c' ≠ "exclusive_marketing")
      (matched_categories "act now, vip" example_store).
Proof.
  apply (delete_category_matched "act now, vip" "exclusive_marketing"
           example_store _ (Success "Deleted exclusive_marketing!")).
  - apply (bool_decide_unpack _). by vm_compute.
  - reflexivity.
Defined.

(** X7 (Delete): Delete raises [KeyError] exactly for a name that is not a
    category; otherwise it reports success and the store loses that entry
    and nothing else, the other categories keeping their order and their
    keywords. *)
Theorem delete_category_spec (c : string) (S : store) :
  NoDup (keys S) →
  (delete_category c S = None ↔ c ∉ keys S)
  ∧ ∀ S' fb, delete_category c S = Some (S', fb) →
      fb = Success ("Deleted " +:+ c +:+ "!")
      ∧ keys S' = filter (λ c', c' ≠ c) (keys S)
      ∧ getitem S' c = None
      ∧ ∀ c', c' ≠ c → getitem S' c' = getitem S c'.
Proof.
  intros Hnd. unfold delete_category. split.
  - rewrite <- delitem_None. by destruct (delitem S c).
  - intros S' fb. destruct (delitem S c) as [S0|] eqn:Hdel; [|done].
    intros [= <- <-].
    destruct (delitem_Some S c S0 Hnd Hdel) as (_ & Hget & Hother).
    split_and!; [done | by apply keys_delitem | done | done].
Qed.

Lemma delete_category_spec_witness :
  delete_category "premium" initial_dictionaries = None
  ↔ "premium" ∉ keys initial_dictionaries.
Proof.
  apply (delete_category_spec "premium" initial_dictionaries).
  apply (bool_decide_unpack _). by vm_compute.
Defined.

(** X8 (Update): Update of a category of the store reports success, keeps
    every category at its place, maps the category to the stripped,
    non-blank lines of the text area and leaves the other categories'
    keywords as they were. *)
Theorem update_category_spec (c text : string) (S : store) :
  c ∈ keys S →
  ∃ S' ks,
    update_category c text S = (S', Success ("Updated " +:+ c +:+ "!"))
    ∧ keys S' = keys S
    ∧ getitem S' c = Some ks
    ∧ (∀ k, k ∈ ks ↔
            ∃ line, line ∈ split "010"%char text ∧ k = strip line ∧ k ≠ "")
    ∧ ∀ c', c' ≠ c → getitem S' c' = getitem S c'.
Proof.
  intros Hc. eexists _, _. unfold update_category.
  split_and!; [done | | apply getitem_setitem | | ].
  - rewrite keys_setitem. by rewrite decide_True.
  - apply elem_of_parse_keywords.
  - intros c' Hc'. by apply getitem_setitem_ne.
Qed.

Lemma update_category_spec_witness :
  ∃ S' ks,
    update_category "exclusive_marketing" "vip" initial_dictionaries
    = (S', Success ("Updated " +:+ "exclusive_marketing" +:+ "!"))
    ∧ keys S' = keys initial_dictionaries
    ∧ getitem S' "exclusive_marketing" = Some ks
    ∧ (∀ k, k ∈ ks ↔
            ∃ line, line ∈ split "010"%char "vip" ∧ k = strip line ∧ k ≠ "")
    ∧ ∀ c', c' ≠ "exclusive_marketing" →
        getitem S' c' = getitem initial_dictionaries c'.
Proof.
  apply (update_category_spec "exclusive_marketing" "vip" initial_dictionaries).
  apply (bool_decide_unpack _). by vm_compute.
Defined.

(** ** The text area of a category and the keywords a session stores *)

Lemma split_no_sep sep s : mentions sep s = false → split sep s = [s].
Proof.
  induction s as [|a s IH]; [done|]. simpl.
  intros [Ha Hs]%orb_false_iff. apply bool_decide_eq_false in Ha.
  rewrite decide_False by done. by rewrite IH.
Qed.

Lemma split_app_sep sep x rest :
  mentions sep x = false →
  split sep (x +:+ String sep rest) = x :: split sep rest.
Proof.
  induction x as [|a x IH].
  - intros _. rewrite app_empty_l. simpl. by rewrite decide_True.
  - simpl. intros [Ha Hx]%orb_false_iff. apply bool_decide_eq_false in Ha.
    rewrite decide_False by done. by rewrite IH.
Qed.

(** Lines without a line break, joined by line breaks and split again,
    are the same lines. *)
Lemma split_join sep l :
  l ≠ [] → (∀ x, x ∈ l → mentions sep x = false) →
  split sep (join (String sep "") l) = l.
Proof.
  induction l as [|x l IH]; [done|]. intros _ Hall.
  destruct l as [|y l].
  - simpl. apply split_no_sep, Hall. left.
  - change (join (String sep "") (x :: y :: l))
      with (x +:+ String sep "" +:+ join (String sep "") (y :: l)).
    change (String sep "" +:+ join (String sep "") (y :: l))
      with (String sep (join (String sep "") (y :: l))).
    rewrite split_app_sep by (apply Hall; left).
    f_equal. apply IH; [done|]. intros z Hz. apply Hall. by right.
Qed.

Lemma mentions_split sep s piece :
  piece ∈ split sep s → mentions sep piece = false.
Proof.
  revert piece. induction s as [|a s IH]; intros piece; simpl.
  - by intros ->%list_elem_of_singleton.
  - destruct (decide (a = sep)) as [->|Ha].
    + intros [->|Hin]%elem_of_cons; [done | by apply IH].
    + pose proof (split_nonempty sep s) as Hne.
      destruct (split sep s) as [|p ps]; [done|].
      intros [->|Hin]%elem_of_cons.
      * simpl. rewrite bool_decide_eq_false_2 by done. apply IH. left.
      * apply IH. by right.
Qed.

Lemma mentions_lstrip c s : mentions c s = false → mentions c (lstrip s) = false.
Proof.
  induction s as [|a s IH]; [done|]. simpl.
  intros [Ha Hs]%orb_false_iff. destruct (isspace a); [by apply IH|].
  simpl. by rewrite Ha, Hs.
Qed.

Lemma mentions_rstrip c s : mentions c s = false → mentions c (rstrip s) = false.
Proof.
  induction s as [|a s IH]; [done|]. simpl.
  intros [Ha Hs]%orb_false_iff. specialize (IH Hs).
  destruct (rstrip s) as [|b r].
  - destruct (isspace a); [done|]. simpl. by rewrite Ha.
  - change (mentions c (String a (String b r)))
      with (bool_decide (a = c) || mentions c (String b r)).
    by rewrite Ha, IH.
Qed.

Lemma lstrip_fixed s :
  (∀ c t, s = String c t → isspace c = false) → lstrip s = s.
Proof.
  destruct s as [|a s]; [done|]. intros Hfirst. simpl.
  by rewrite (Hfirst a s).
Qed.

Lemma rstrip_fixed s :
  (∀ p c, s = p +:+ String c "" → isspace c = false) → rstrip s = s.
Proof.
  induction s as [|a s IH]; [done|]. intros Hlast. simpl.
  rewrite IH.
  - destruct s as [|b s]; [|done]. by rewrite (Hlast "" a).
  - intros p c ->. by apply (Hlast (String a p) c).
Qed.

(** Stripping twice strips no more than once. *)
Lemma strip_idemp s : strip (strip s) = strip s.
Proof.
  destruct (strip_spec s) as (_ & _ & _ & _ & _ & Hfirst & Hlast).
  unfold strip at 1. rewrite (lstrip_fixed (strip s)) by done.
  by apply rstrip_fixed.
Qed.

Lemma parse_keywords_ok text k :
  k ∈ parse_keywords text → keyword_ok k = true.
Proof.
  intros (line & Hin & -> & Hne)%elem_of_parse_keywords.
  unfold keyword_ok. rewrite !andb_true_iff, negb_true_iff. split_and!.
  - by apply truthy_spec.
  - apply bool_decide_eq_true, strip_idemp.
  - unfold strip. by apply mentions_rstrip, mentions_lstrip, (mentions_split _ text).
Qed.

Lemma keyword_ok_spec k :
  keyword_ok k = true ↔
  k ≠ "" ∧ strip k = k ∧ mentions "010" k = false.
Proof.
  unfold keyword_ok.
  rewrite !andb_true_iff, negb_true_iff, truthy_spec, bool_decide_eq_true.
  by rewrite (assoc (∧)).
Qed.

(** The text area of a category, parsed as Update parses it, gives the
    category's keywords back. *)
Lemma parse_keywords_text (ks : gset string) :
  (∀ k, k ∈ ks → keyword_ok k = true) →
  parse_keywords (keywords_text ks) = ks.
Proof.
  intros Hok. unfold parse_keywords, keywords_text.
  destruct (elements ks) as [|x l] eqn:Hel.
  - apply elements_empty_inv, leibniz_equiv in Hel. by subst.
  - assert (∀ k, k ∈ x :: l → keyword_ok k = true) as Hok'.
    { intros k Hk. apply Hok. apply elem_of_elements. by rewrite Hel. }
    rewrite split_join; [|done|].
    + rewrite filter_all.
      * rewrite <- (list_to_set_elements_L ks), Hel. f_equal.
        rewrite <- (list_fmap_id (x :: l)) at 2.
        apply list_fmap_ext. intros i k Hk%list_elem_of_lookup_2. simpl.
        by apply Hok', keyword_ok_spec in Hk as (_ & ? & _).
      * intros k Hk. apply Hok', keyword_ok_spec in Hk as (Hne & -> & _).
        by apply Is_true_true, truthy_spec.
    + intros k Hk. by apply Hok', keyword_ok_spec in Hk as (_ & _ & ?).
Qed.

Lemma setitem_id {V} (d : dict V) k v : getitem d k = Some v → setitem d k v = d.
Proof.
  induction d as [|[k' v'] d IH]; simpl; [done|].
  destruct (decide (k' = k)) as [->|Hk].
  - by intros [= ->].
  - intros Hget. by rewrite IH.
Qed.

Lemma elem_of_setitem {V} (d : dict V) k v k' v' :
  (k', v') ∈ setitem d k v → (k', v') = (k, v) ∨ (k', v') ∈ d.
Proof.
  induction d as [|[k0 v0] d IH]; simpl.
  - intros ->%list_elem_of_singleton. by left.
  - destruct (decide (k0 = k)) as [->|Hk].
    + intros [->|Hin]%elem_of_cons; [by left | right; by right].
    + intros [->|Hin]%elem_of_cons; [right; left|].
      destruct (IH Hin); [by left | right; by right].
Qed.

Lemma elem_of_delitem {V} (d d' : dict V) k x :
  delitem d k = Some d' → x ∈ d' → x ∈ d.
Proof.
  revert d'. induction d as [|[k0 v0] d IH]; intros d'; simpl; [done|].
  destruct (decide (k0 = k)) as [->|Hk].
  - intros [= <-] Hin. by right.
  - destruct (delitem d k) as [d0|] eqn:Hdel; [|done].
    intros [= <-] [->|Hin]%elem_of_cons; [left | right; by apply (IH d0)].
Qed.

(** X9 (Update without an edit): when the keywords of a category are
    non-empty, stripped and free of line breaks, pressing Update with the
    text area as the page filled it leaves the store exactly as it was. *)
Theorem update_prefilled_noop (c : string) (ks : gset string) (S : store) :
  getitem S c = Some ks →
  (∀ k, k ∈ ks → k ≠ "" ∧ strip k = k ∧ mentions "010" k = false) →
  update_category c (keywords_text ks) S
  = (S, Success ("Updated " +:+ c +:+ "!")).
Proof.
  intros Hget Hok. unfold update_category.
  rewrite parse_keywords_text by (intros k Hk; by apply keyword_ok_spec, Hok).
  by rewrite setitem_id.
Qed.

Lemma update_prefilled_noop_witness :
  update_category "exclusive_marketing" (keywords_text {["vip"]}) example_store
  = (example_store, Success ("Updated " +:+ "exclusive_marketing" +:+ "!")).
Proof.
  apply update_prefilled_noop; [reflexivity|].
  intros k ->%elem_of_singleton. apply keyword_ok_spec. by vm_compute.
Defined.

Lemma reachable_invariant (S : store) :
  reachable S →
  NoDup (keys S)
  ∧ ∀ c ks k, (c, ks) ∈ S → k ∈ ks → keyword_ok k = true.
Proof.
  induction 1 as [|S e S' _ [Hnd Hok] Hstep].
  - split; [apply (bool_decide_unpack _); by vm_compute|].
    intros c ks k Hc Hk.
    assert (Forall (λ item, set_Forall (λ k, keyword_ok k = true) item.2)
              initial_dictionaries) as Hall
      by (apply (bool_decide_unpack _); by vm_compute).
    rewrite Forall_forall in Hall. by apply (Hall (c, ks) Hc k).
  - assert (∀ c text, NoDup (keys (setitem S c (parse_keywords text)))
        ∧ ∀ c' ks k, (c', ks) ∈ setitem S c (parse_keywords text) → k ∈ ks →
            keyword_ok k = true) as Hset.
    { intros c text. split; [by apply NoDup_keys_setitem|].
      intros c' ks k [[= -> ->]|Hin]%elem_of_setitem Hk.
      - by apply (parse_keywords_ok text).
      - by apply (Hok c' ks). }
    destruct e as [c text|c|c text]; simpl in Hstep.
    + destruct (decide (c ∈ keys S)); [|done].
      injection Hstep as <-. apply Hset.
    + destruct (decide (c ∈ keys S)); [|done].
      unfold delete_category in Hstep.
      destruct (delitem S c) as [S0|] eqn:Hdel; [|done].
      injection Hstep as <-.
      destruct (delitem_Some S c S0 Hnd Hdel) as (Hnd0 & _).
      split; [done|]. intros c' ks k Hin Hk.
      apply (Hok c' ks); [|done]. by apply (elem_of_delitem S S0 c).
    + injection Hstep as <-. unfold add_category.
      destruct (truthy c && truthy text); [apply Hset | by split].
Qed.

(** X10 (what a session stores): in every store reached from the initial
    dictionaries by Update, Delete and Add Category, the category names are
    pairwise distinct and every keyword is non-empty, has no whitespace at
    either end and no line break. *)
Theorem reachable_store_ok (S : store) :
  reachable S →
  NoDup (keys S)
  ∧ ∀ c ks k, (c, ks) ∈ S → k ∈ ks →
      k ≠ "" ∧ strip k = k ∧ mentions "010" k = false.
Proof.
  intros [Hnd Hok]%reachable_invariant. split; [done|].
  intros c ks k Hc Hk. by apply keyword_ok_spec, (Hok c ks).
Qed.

Lemma reachable_store_ok_witness :
  NoDup (keys (add_category "scarcity" "  only a few left " initial_dictionaries).1)
  ∧ ∀ c ks k,
      (c, ks) ∈ (add_category "scarcity" "  only a few left " initial_dictionaries).1 →
      k ∈ ks → k ≠ "" ∧ strip k = k ∧ mentions "010" k = false.
Proof.
  apply reachable_store_ok.
  apply (reachable_edit initial_dictionaries
           (Add "scarcity" "  only a few left ")); [constructor | reflexivity].
Defined.

(** X11 (Update without an edit, in a session): in every store a session
    can reach, pressing Update on any category with its text area as the
    page filled it changes nothing. *)
Theorem reachable_update_prefilled (S : store) (c : string) (ks : gset string) :
  reachable S → getitem S c = Some ks →
  update_category c (keywords_text ks) S
  = (S, Success ("Updated " +:+ c +:+ "!")).
Proof.
  intros [Hnd Hok]%reachable_invariant Hget. unfold update_category.
  rewrite parse_keywords_text; [by rewrite setitem_id|].
  intros k Hk. apply (Hok c ks); [by apply getitem_Some | done].
Qed.

Lemma reachable_update_prefilled_witness :
  update_category "urgency_marketing"
    (keywords_text {["limited"; "limited time"; "limited run";
      "limited edition"; "order now"; "last chance"; "hurry";
      "while supplies last"; "before they're gone"; "selling out";
      "selling fast"; "act now"; "don't wait"; "today only"; "expires soon";
      "final hours"; "almost gone"]})
    initial_dictionaries
  = (initial_dictionaries, Success ("Updated " +:+ "urgency_marketing" +:+ "!")).
Proof.
  apply reachable_update_prefilled; [constructor | reflexivity].
Defined.

(** X12 (no keyword matches everything): a session never stores the empty
    keyword, which would occur in every text; so in every store a session
    can reach the text with no character is labelled "unclassified". *)
Theorem reachable_empty_text {obj} `{PyObject obj} (S : store) :
  reachable S → classify_text (VStr "") S = "unclassified".
Proof.
  intros [_ Hok]%reachable_invariant. rewrite classify_text_matched.
  assert (matched_categories (lower (str (VStr "" : value obj))) S = []) as ->;
    [|done].
  apply matched_categories_nil. intros c ks k Hc Hk (pre & suf & Heq).
  apply (Hok c ks) in Hk; [|done]. apply keyword_ok_spec in Hk as (Hne & _).
  destruct pre; [|done]. rewrite app_empty_l in Heq. by destruct k.
Qed.

Lemma reachable_empty_text_witness :
  classify_text (VStr "" : value scalar)
    (add_category "scarcity" "only a few left" initial_dictionaries).1
  = "unclassified".
Proof.
  apply reachable_empty_text.
  apply (reachable_edit initial_dictionaries
           (Add "scarcity" "only a few left")); [constructor | reflexivity].
Defined.

(** The empty keyword, which only a store built by hand can hold, matches
    every text. *)
Example empty_keyword_matches_all :
  classify_text (VStr "" : value scalar) [("any", {[""]})] = "any".
Proof. by vm_compute. Qed.

(** ** Tables: shape, figures and filters *)

Lemma select_nil_r {A} (mask : list bool) : select mask ([] : list A) = [].
Proof. by destruct mask. Qed.

Lemma select_cons {A} (b : bool) mask (x : A) col :
  select (b :: mask) (x :: col)
  = if b then x :: select mask col else select mask col.
Proof.
  unfold select. csimpl. rewrite filter_cons. simpl.
  destruct b; [by rewrite decide_True | by rewrite decide_False].
Qed.


Lemma length_select {A} mask (col : list A) :
  length mask = length col →
  length (select mask col) = length (filter (λ b, b = true) mask).
Proof.
  revert col. induction mask as [|b mask IH]; intros [|x col]; try done.
  intros [= Hlen]. rewrite select_cons, filter_cons.
  destruct b; simpl; [by rewrite IH | by apply IH].
Qed.


Lemma length_filter_fmap {A} (f : A → bool) (l : list A) :
  length (filter (λ b, b = true) (f <$> l)) = length (filter (λ x, f x = true) l).
Proof.
  induction l as [|x l IH]; [done|]. csimpl. rewrite !filter_cons.
  destruct (f x); simpl; by rewrite IH.
Qed.

Lemma length_filter_split {A} (f : A → bool) (l : list A) :
  length (filter (λ x, negb (f x) = true) l) + length (filter (λ x, f x = true) l)
  = length l.
Proof.
  induction l as [|x l IH]; [done|]. rewrite !filter_cons.
  destruct (f x); simpl; lia.
Qed.



Lemma rectangular_select_rows {obj} n mask (df : dataframe obj) :
  rectangular n df → length mask = n →
  rectangular (length (filter (λ b, b = true) mask)) (select_rows mask df).
Proof.
  unfold rectangular, select_rows. intros Hrect Hmask.
  apply Forall_fmap. eapply Forall_impl; [apply Hrect|].
  intros [c col] Hlen. simpl in *. apply length_select. congruence.
Qed.

Lemma rectangular_getitem {obj} n (df : dataframe obj) column col :
  rectangular n df → getitem df column = Some col → length col = n.
Proof.
  intros Hrect Hget%getitem_Some. unfold rectangular in Hrect.
  rewrite Forall_forall in Hrect. by apply (Hrect (column, col)).
Qed.

Lemma rectangular_setitem {obj} n (df : dataframe obj) column col :
  rectangular n df → length col = n → rectangular n (setitem df column col).
Proof.
  unfold rectangular. intros Hrect Hlen.
  induction df as [|[c col0] df IH]; simpl.
  - by repeat constructor.
  - apply Forall_cons in Hrect as [Hc Hrect].
    destruct (decide (c = column)); constructor; try done. by apply IH.
Qed.

Lemma len_df_rectangular {obj} n (df : dataframe obj) :
  df ≠ [] → rectangular n df → len_df df = n.
Proof.
  destruct df as [|[c col] df]; [done|]. by intros _ [Hc _]%Forall_cons.
Qed.

Lemma setitem_nonempty {V} (d : dict V) k v : setitem d k v ≠ [].
Proof. destruct d as [|[k' v'] d]; simpl; [done|]. by destruct (decide (k' = k)). Qed.

(** The figures of a table with [n] rows and a classification column. *)
Lemma metrics_rectangular {obj} n (df : dataframe obj) labels :
  rectangular n df → getitem df "classification" = Some labels →
  metrics df
  = Some (n,
          length (filter (λ v, negb (is_unclassified v) = true) labels),
          length (filter (λ v, is_unclassified v = true) labels)).
Proof.
  intros Hrect Hget. unfold metrics. rewrite Hget. simpl.
  pose proof (rectangular_getitem n df _ _ Hrect Hget) as Hlen.
  assert (df ≠ []) as Hne by (by intros ->).
  assert (∀ mask, select_rows mask df ≠ []) as Hne'
    by (intros mask; destruct df; by try done).
  assert (∀ g : value obj → bool,
            len_df (select_rows (g <$> labels) df)
            = length (filter (λ v, g v = true) labels)) as Hsel.
  { intros g. rewrite <- length_filter_fmap.
    apply len_df_rectangular; [done|].
    apply (rectangular_select_rows n); [done | by rewrite length_fmap]. }
  rewrite (len_df_rectangular n) by done.
  by rewrite (Hsel (negb ∘ is_unclassified)), (Hsel is_unclassified).
Qed.

(** X13 (the Classify button): with an empty store, or a text column the
    table does not have, the button reports an error and the table is the
    one it was; otherwise it reports success and the table is the
    classified one. *)
Theorem classify_button_outcome {obj} `{PyObject obj} (df : dataframe obj)
    (text_column : string) (S : store) :
  (S = [] ∨ text_column ∉ keys df →
   ∃ msg, classify_button df text_column S = (df, Error msg))
  ∧ (S ≠ [] → text_column ∈ keys df →
     ∃ df', classify_all df text_column S = Some df'
       ∧ classify_button df text_column S
         = (df', Success "Classification completed!")).
Proof.
  unfold classify_button, classify_all. split.
  - intros [->|Hcol%getitem_None]; [by eexists|].
    rewrite Hcol. destruct S; by eexists.
  - intros HS Hcol. destruct (getitem df text_column) as [texts|] eqn:Hget.
    + eexists. split; [done|]. by destruct S.
    + by apply getitem_None in Hget.
Qed.

(** X14 (shape of the classified table): classifying a table of [n] rows
    gives a table of [n] rows: every column, the classification column
    included, has [n] values. *)
Theorem classify_all_rectangular {obj} `{PyObject obj} (n : nat)
    (df : dataframe obj) (text_column : string) (texts : list (value obj))
    (S : store) :
  rectangular n df → getitem df text_column = Some texts →
  ∃ df' labels,
    classify_all df text_column S = Some df'
    ∧ rectangular n df' ∧ len_df df' = n
    ∧ getitem df' "classification" = Some labels ∧ length labels = n.
Proof.
  intros Hrect Hget. unfold classify_all. rewrite Hget. simpl.
  pose proof (rectangular_getitem n df _ _ Hrect Hget) as Hlen.
  assert (rectangular n (setitem df "classification"
            ((λ x, VStr (classify_text x S)) <$> texts))) as Hrect'
    by (apply rectangular_setitem; [done | by rewrite length_fmap]).
  eexists _, _. split_and!; [done | done | | apply getitem_setitem |].
  - apply len_df_rectangular; [apply setitem_nonempty | done].
  - by rewrite length_fmap.
Qed.

Lemma classify_all_rectangular_witness :
  ∃ df' labels,
    classify_all sample_table "text" example_store = Some df'
    ∧ rectangular 2 df' ∧ len_df df' = 2
    ∧ getitem df' "classification" = Some labels ∧ length labels = 2.
Proof.
  apply (classify_all_rectangular 2 sample_table "text"
           [VStr "VIP early access"; VObj SNaN] example_store).
  - by repeat constructor.
  - reflexivity.
Defined.

(** X15 (the three figures): after the classification of a table of [n]
    rows, Total Statements is [n], Unclassified is the number of rows whose
    text is labelled "unclassified", Classified the number of the others,
    and Classified plus Unclassified is Total Statements. *)
Theorem metrics_after_classify {obj} `{PyObject obj} (n : nat)
    (df : dataframe obj) (text_column : string) (texts : list (value obj))
    (S : store) :
  rectangular n df → getitem df text_column = Some texts →
  ∃ df' classified unclassified,
    classify_all df text_column S = Some df'
    ∧ metrics df' = Some (n, classified, unclassified)
    ∧ classified
      = length (filter (λ x, classify_text x S ≠ "unclassified") texts)
    ∧ unclassified
      = length (filter (λ x, classify_text x S = "unclassified") texts)
    ∧ classified + unclassified = n.
Proof.
  intros Hrect Hget. unfold classify_all. rewrite Hget. simpl.
  pose proof (rectangular_getitem n df _ _ Hrect Hget) as Hlen.
  set (labels := (λ x, VStr (classify_text x S)) <$> texts).
  assert (rectangular n (setitem df "classification" labels)) as Hrect'
    by (apply rectangular_setitem; [done | by unfold labels; rewrite length_fmap]).
  eexists _, _, _. split; [done|]. split.
  { apply (metrics_rectangular n _ labels Hrect'), getitem_setitem. }
  assert (∀ g : value obj → bool,
            length (filter (λ v, g v = true) labels)
            = length (filter (λ x, g (VStr (classify_text x S)) = true) texts))
    as Hcount.
  { intros g. unfold labels. clear. induction texts as [|x l IH]; [done|].
    csimpl. rewrite !filter_cons. simpl.
    destruct (g (VStr (classify_text x S))); simpl; by rewrite IH. }
  split_and!.
  - rewrite (Hcount (λ v, negb (is_unclassified v))). f_equal.
    apply list_filter_iff. intros x. simpl.
    by rewrite negb_true_iff, bool_decide_eq_false.
  - rewrite (Hcount is_unclassified). f_equal.
    apply list_filter_iff. intros x. simpl. by rewrite bool_decide_eq_true.
  - rewrite (length_filter_split is_unclassified labels).
    by unfold labels; rewrite length_fmap.
Qed.

Lemma metrics_after_classify_witness :
  ∃ df' classified unclassified,
    classify_all sample_table "text" example_store = Some df'
    ∧ metrics df' = Some (2, classified, unclassified)
    ∧ classified
      = length (filter (λ x, classify_text x example_store ≠ "unclassified")
                  [VStr "VIP early access"; VObj SNaN])
    ∧ unclassified
      = length (filter (λ x, classify_text x example_store = "unclassified")
                  [VStr "VIP early access"; VObj SNaN])
    ∧ classified + unclassified = 2.
Proof.
  apply (metrics_after_classify 2 sample_table "text"
           [VStr "VIP early access"; VObj SNaN] example_store).
  - by repeat constructor.
  - reflexivity.
Defined.






(** A category named "a(" is offered as a filter option; choosing it
    raises, because the name is compiled as a regular expression. *)
Example filter_by_unbalanced_name :
  filter_results compile_plain "a(" classified_table = inl ReError.
Proof. by vm_compute. Qed.



(** The option is searched for inside the labels: "exclusive" keeps the
    row labelled "urgency_marketing, exclusive_marketing". *)
Example filter_by_name_inside_names :
  ∃ df',
    filter_results compile_plain "exclusive" classified_table = inr df'
    ∧ getitem df' "text" = Some [VStr "Act now, VIP"].
Proof. eexists. split; [reflexivity | by vm_compute]. Qed.

(** ** Case and iteration order, for whole stores *)

(** X18 (lowercase keywords match whatever the case): in a store all of
    whose keywords are in lowercase, as the initial dictionaries are, a
    keyword that occurs in the text up to case puts its category in the
    label. *)
Theorem lowercase_store_case_insensitive {obj} `{PyObject obj}
    (T : value obj) (S : store) :
  (∀ c ks kw, (c, ks) ∈ S → kw ∈ ks → lower kw = kw) →
  ∀ c ks kw, (c, ks) ∈ S → kw ∈ ks →
    substring_of (lower kw) (lower (str T)) →
    c ∈ matched_categories (lower (str T)) S
    ∧ substring_of c (classify_text T S).
Proof.
  intros Hlow c ks kw Hc Hkw Hsub.
  apply (stored_keyword_match T S c ks kw); [done..|].
  apply stored_keyword_test. split; [by apply (Hlow c ks) | done].
Qed.

Lemma lowercase_store_case_insensitive_witness :
  "exclusive_marketing"
    ∈ matched_categories (lower (str example_text)) initial_dictionaries
  ∧ substring_of "exclusive_marketing"
      (classify_text example_text initial_dictionaries).
Proof.
  assert (Forall (λ item, set_Forall (λ kw, lower kw = kw) item.2)
            initial_dictionaries) as Hall
    by (apply (bool_decide_unpack _); by vm_compute).
  rewrite Forall_forall in Hall.
  eapply (lowercase_store_case_insensitive example_text initial_dictionaries
            (λ c ks kw Hc Hkw, Hall (c, ks) Hc kw Hkw)
            "exclusive_marketing" _ "vip").
  - right. left.
  - by vm_compute.
  - by exists "act now, ", " members get early access".
Defined.

(** X19 (the order a set yields its keywords): listing the keywords of
    each category in any order, with or without repeats, the two loops
    compute the same label. *)
Theorem classify_text_set_order {obj} `{PyObject obj} (T : value obj)
    (S : store) (items : list (string * list string)) :
  Forall2 (λ stored listed,
             listed.1 = stored.1 ∧ ∀ kw, kw ∈ listed.2 ↔ kw ∈ stored.2)
    S items →
  label (fold_left
           (λ acc item, scan_keywords (lower (str T)) item.1 item.2 acc)
           items [])
  = classify_text T S.
Proof.
  intros Hitems. unfold classify_text, scan_categories. f_equal.
  generalize (@nil string) as acc.
  induction Hitems as [|[c ks] [c' l] S items [Hc Hl] _ IH]; intros acc;
    [done|].
  simpl in *. subst c'. rewrite IH. f_equal.
  apply scan_keywords_order. intros kw. by rewrite Hl, elem_of_elements.
Qed.

Lemma classify_text_set_order_witness :
  label (fold_left
           (λ acc item, scan_keywords (lower (str example_text)) item.1 item.2 acc)
           [("urgency_marketing", ["act now"; "hurry"; "act now"]);
            ("exclusive_marketing", ["vip"])] [])
  = classify_text example_text example_store.
Proof.
  apply (classify_text_set_order example_text example_store).
  constructor; [split; [done | intros kw; set_unfold; tauto]|].
  constructor; [split; [done | intros kw; set_unfold; tauto]|].
  constructor.
Defined.
